(** * Comment search subsystem: buffered engine, local and remote back ends

    A shallow embedding of the Go package [search]
    (buffered_engine.go, the bleve adapter and the elastic adapter) and
    the properties of it that the specification states.

    Conventions.
    - A Go [string] is a byte sequence: Rocq's [string] (a list of [ascii]).
    - A Go [[]byte] is a [list byte].
    - A Go [map[string]T] is a [gmap string T].
    - A Go [error] value is an [option error]: [None] is [nil].
    - A function that can panic returns an [outcome]. *)

From Stdlib Require Import ZArith List Ascii String Bool Lia.
From Stdlib Require Import Strings.Byte.
From Stdlib Require Import DecimalString.
From stdpp Require Import base option list strings gmap.
Import ListNotations.

#[local] Open Scope string_scope.
#[local] Open Scope list_scope.

(** ** Go's [strings] helpers used by the package *)

Module GoStrings.

(** [strings.HasPrefix(s, prefix)]. *)
Fixpoint HasPrefix (s prefix : string) {struct prefix} : bool :=
  match prefix with
  | EmptyString => true
  | String p prefix' =>
      match s with
      | EmptyString => false
      | String c s' => if Ascii.eqb c p then HasPrefix s' prefix' else false
      end
  end.

(** The slice expression [s[n:]]. *)
Fixpoint slice_from (n : nat) (s : string) : string :=
  match n with
  | O => s
  | S n' => match s with
            | EmptyString => EmptyString
            | String _ s' => slice_from n' s'
            end
  end.

(** [strings.TrimPrefix(s, prefix)]: [s] without the leading [prefix],
    or [s] itself when it does not start with [prefix]. *)
Definition TrimPrefix (s prefix : string) : string :=
  if HasPrefix s prefix then slice_from (String.length prefix) s else s.

(** [strings.Split(s, sep)] for a separator of one byte, which is the only
    way the package calls it ([":"]).  The result is never empty: a string
    without the separator is returned as the single field. *)
Fixpoint Split (s : string) (sep : ascii) : list string :=
  match s with
  | EmptyString => [EmptyString]
  | String c s' =>
      if Ascii.eqb c sep then EmptyString :: Split s' sep
      else match Split s' sep with
           | fld :: flds => String c fld :: flds
           | [] => [String c EmptyString]
           end
  end.

(** [strings.Join(l, sep)]. *)
Fixpoint Join (l : list string) (sep : string) : string :=
  match l with
  | [] => EmptyString
  | [x] => x
  | x :: rest => (x ++ sep ++ Join rest sep)%string
  end.

End GoStrings.

(** ** Errors

    [errors.Errorf] keeps its format string and arguments, so that what a
    message mentions can be read off the value; [Wrap] and [Wrapf] keep the
    cause.  Errors that come out of a library are [LibError]. *)

Inductive error : Type :=
| Errorf (format : string) (args : list fmtarg)
| Wrap (cause : error) (message : string)
| Wrapf (cause : error) (format : string) (args : list fmtarg)
| LibError (origin : string) (detail : string)
with fmtarg : Type :=
| ArgString (s : string)
| ArgStrings (l : list string)
| ArgError (e : error).

(** [io.EOF]. *)
Definition EOF : error := LibError "io" "EOF".

(** [errors.Cause]: the innermost error of a chain of wraps. *)
Fixpoint Cause (e : error) : error :=
  match e with
  | Wrap c _ => Cause c
  | Wrapf c _ _ => Cause c
  | _ => e
  end.

(** A value or an error, for Go's [(T, error)] results. *)
Inductive result (A : Type) : Type :=
| Ok (a : A)
| Err (e : error).
Arguments Ok {A} a.
Arguments Err {A} e.

(** What a call that may panic does. *)
Inductive outcome (A : Type) : Type :=
| Returned (a : A)
| Panicked (message : error).
Arguments Returned {A} a.
Arguments Panicked {A} message.

(** ** Shared value types *)

(** Modelled from the spec: the declaration of [DocumentComment] is not in
    the sources at hand; the spec gives its fields (ID, URL, Text, Username,
    Timestamp).  The code below reads [ID] and [URL] only. *)
Record DocumentComment : Type := mkDoc {
  ID : string;
  URL : string;
  Text : string;
  Username : string;
  Timestamp : Z
}.

(** Modelled from the spec: [Request] (SiteID, Query, SortBy, Limit, From). *)
Record Request : Type := mkRequest {
  SiteID : string;
  Query : string;
  SortBy : string;
  Limit : Z;
  From : Z
}.

Record TokenMatch : Type := mkTokenMatch { Start : Z; End : Z }.

Record ResultDoc : Type := mkResultDoc {
  rdID : string;
  rdMatches : list TokenMatch;
  rdPostURL : string
}.

Record ResultPage : Type := mkResultPage {
  Total : Z;
  Documents : list ResultDoc
}.

(** [store.Locator] and the part of [store.Comment] the package reads. *)
Record Locator : Type := mkLocator { locSiteID : string; locURL : string }.

Record Comment : Type := mkComment {
  cID : string;
  cLocator : Locator;
  cText : string;
  cUser : string;
  cTimestamp : Z
}.

(** ** The remote back end (elastic) *)

Module Elastic.

(** [elasticsearch.Config], the fields the package sets. *)
Record Config : Type := mkConfig {
  Addresses : list string;
  cfgUsername : string;
  cfgPassword : string;
  cfgAPIKey : string
}.

Definition colon : ascii := ":"%char.

(** [parseSecret(secret, cfg)].  The configuration is written through a
    pointer in the source; here the updated configuration is returned. *)
Definition parseSecret (secret : string) (cfg : Config) : Config * option error :=
  if GoStrings.HasPrefix secret "basic:" then
    let userpass := GoStrings.Split (GoStrings.TrimPrefix secret "basic:") colon in
    match userpass with
    | [user; pass] =>
        (mkConfig (Addresses cfg) user pass (cfgAPIKey cfg), None)
    | _ =>
        (cfg, Some (Errorf "secret for basic auth sould have format 'basic:user:pass'" []))
    end
  else if GoStrings.HasPrefix secret "token:" then
    (mkConfig (Addresses cfg) (cfgUsername cfg) (cfgPassword cfg)
       (GoStrings.TrimPrefix secret "token:"), None)
  else
    let allowed := ["basic:"; "token:"] in
    (cfg, Some (Errorf "secret should starts with one of prefixes: %v" [ArgStrings allowed])).

(** [SearcherParams], as the factory passes it. *)
Record SearcherParams : Type := mkParams {
  pType : string;
  pIndexPath : string;
  pAnalyzer : string;
  pEndpoint : string;
  pSecret : string;
  pSites : list string
}.

(** [esutil.BulkIndexerItem]: the failure callback only logs and is left out. *)
Record BulkIndexerItem : Type := mkItem {
  Action : string;
  DocumentID : string;
  Body : option (list byte)
}.

(** [esutil.BulkIndexer], seen through the items that were added to it. *)
Record BulkIndexer : Type := mkBulkIndexer {
  biIndex : string;
  biItems : list BulkIndexerItem
}.

(** [BulkIndexer.Add(ctx, item)] of the client library: the item is queued,
    unless the context is cancelled, in which case the context's error is
    returned and nothing is queued. *)
Definition biAdd (cancelled : bool) (item : BulkIndexerItem) (bi : BulkIndexer)
  : BulkIndexer * option error :=
  if cancelled then (bi, Some (LibError "context" "context canceled"))
  else (mkBulkIndexer (biIndex bi) (biItems bi ++ [item]), None).

Section Service.

(** The client library and the helpers of the package that are declared
    outside the sources at hand. *)
Context {Client : Type}.
Variable NewClient : Config -> result Client.
Variable NewBulkIndexer : string -> Client -> result BulkIndexer.
Variable DocFromComment : Comment -> DocumentComment.
Variable json_Marshal : DocumentComment -> result (list byte).

(** The struct [elastic]; the context and its cancel function are the flag
    [cancelled]. *)
Record elastic : Type := mkElastic {
  client : Client;
  bulkIndexers : gmap string BulkIndexer;
  cancelled : bool
}.

(** The loop of [newElasticService] that creates one bulk indexer per site. *)
Fixpoint makeBulkIndexers (c : Client) (sites : list string)
  (acc : gmap string BulkIndexer) : result (gmap string BulkIndexer) :=
  match sites with
  | [] => Ok acc
  | siteID :: rest =>
      match NewBulkIndexer siteID c with
      | Err e => Err e
      | Ok bi => makeBulkIndexers c rest (<[siteID := bi]> acc)
      end
  end.

(** [newElasticService(params)]. *)
Definition newElasticService (params : SearcherParams) : result elastic :=
  if (String.eqb (pEndpoint params) EmptyString || String.eqb (pSecret params) EmptyString)%bool then
    Err (Errorf "elasticsearch parameters are not set" [])
  else
    let cfg := mkConfig [pEndpoint params] EmptyString EmptyString EmptyString in
    match parseSecret (pSecret params) cfg with
    | (_, Some err) => Err err
    | (cfg', None) =>
        match NewClient cfg' with
        | Err err => Err err
        | Ok c =>
            match makeBulkIndexers c (pSites params) ∅ with
            | Err err => Err err
            | Ok bis => Ok (mkElastic c bis false)
            end
        end
    end.

(** [elastic.IndexDocument(commentID, comment)]. *)
Definition IndexDocument (commentID : string) (comment : Comment) (e : elastic)
  : elastic * option error :=
  let doc := DocFromComment comment in
  match json_Marshal doc with
  | Err err =>
      (e, Some (Wrapf err "cannot encode document %s: %s" [ArgString (ID doc); ArgError err]))
  | Ok data =>
      let siteID := locSiteID (cLocator comment) in
      let '(e', err) :=
        match bulkIndexers e !! siteID with
        | Some bi =>
            let '(bi', err) := biAdd (cancelled e) (mkItem "index" (ID doc) (Some data)) bi in
            (mkElastic (client e) (<[siteID := bi']> (bulkIndexers e)) (cancelled e), err)
        | None =>
            (e, Some (Errorf "index for site %s does not found" [ArgString siteID]))
        end in
      match err with
      | Some err => (e', Some (Wrap err "failed to add document to batch"))
      | None => (e', None)
      end
  end.

(** [elastic.Delete(siteID, commentID)]. *)
Definition Delete (siteID commentID : string) (e : elastic) : elastic * option error :=
  match bulkIndexers e !! siteID with
  | Some bi =>
      let '(bi', err) := biAdd (cancelled e) (mkItem "delete" commentID None) bi in
      (mkElastic (client e) (<[siteID := bi']> (bulkIndexers e)) (cancelled e), err)
  | None =>
      (e, Some (Errorf "index for site %s does not found" [ArgString siteID]))
  end.

(** [elastic.Flush(siteID)]: a stub that succeeds. *)
Definition Flush (siteID : string) (e : elastic) : elastic * option error := (e, None).

(** [elastic.Ready()] and [elastic.Type()]. *)
Definition Ready (e : elastic) : bool := true.
Definition Type_ (e : elastic) : string := "elastic".

(** [elacticQuery]: the match query with its page. *)
Record elacticQuery : Type := mkQuery {
  qText : string;
  qSize : Z;
  qFrom : Z
}.

(** [elacticResponse], the fields that [Search] reads: of a hit its source. *)
Record esHit : Type := mkEsHit {
  ehID : string;
  ehSource : DocumentComment
}.

Record elacticResponse : Type := mkEsResponse {
  erTook : Z;
  erTotal : Z;
  erHits : list esHit
}.

(** [esapi.Response]: the status, and what reading the body to its end
    gives (the bytes, or the error of the read). *)
Record httpResponse : Type := mkHttpResponse {
  respStatusCode : Z;
  respBody : result (list byte)
}.

(** The client library and [encoding/json], as [Search] and [Close] call
    them: the encoder of the query, the search call with index and body, the
    decoder of the response, and the error of [BulkIndexer.Close]. *)
Variable json_EncodeQuery : elacticQuery -> result (list byte).
Variable client_Search : Client -> string -> list byte -> result httpResponse.
Variable json_DecodeResponse : list byte -> result elacticResponse.
Variable biClose : BulkIndexer -> option error.

(** [elastic.buildQuery(req)]: [log.Fatalf] ends the process, which is shown
    as a call that does not return. *)
Definition buildQuery (req : Request) : outcome (list byte) :=
  match json_EncodeQuery (mkQuery (Query req) (Limit req) (From req)) with
  | Err _ => Panicked (LibError "log" "Fatalf: Error encoding query: %s")
  | Ok buf => Returned buf
  end.

(** The conversion [uint64(n)] of an [int]. *)
Definition uint64 (n : Z) : Z := (n mod 2 ^ 64)%Z.

(** [elastic.Search(req)].  In the message of a cluster error the status
    ([%d]) is kept as its decimal text, the body as a string. *)
Definition Search (req : Request) (e : elastic) : outcome (result ResultPage) :=
  match buildQuery req with
  | Panicked m => Panicked m
  | Returned body =>
      match client_Search (client e) (SiteID req) body with
      | Err err => Returned (Err err)
      | Ok resp =>
          if (299 <? respStatusCode resp)%Z then
            match respBody resp with
            | Err err => Returned (Err (Wrap err "error reading the response body"))
            | Ok excerpt =>
                Returned (Err (Errorf "elastic respond an error %d: %s"
                                 [ArgString (NilZero.string_of_int (Z.to_int (respStatusCode resp)));
                                  ArgString (string_of_list_byte excerpt)]))
            end
          else
            match respBody resp with
            | Err err => Returned (Err (Wrap err "error parsing the response body"))
            | Ok content =>
                match json_DecodeResponse content with
                | Err err => Returned (Err (Wrap err "error parsing the response body"))
                | Ok r =>
                    Returned (Ok (mkResultPage (uint64 (erTotal r))
                                    (map (fun v => mkResultDoc (ID (ehSource v)) []
                                                     (URL (ehSource v)))
                                       (erHits r))))
                end
            end
      end
  end.

(** The loop of [elastic.Close] over the bulk indexers: [errs] is the list
    of errors of the [*multierror.Error].  [multierror.Append(err, ...)] is
    called with the error of the indexer as its first argument, so it starts
    a new list each time. *)
Fixpoint closeIndexers (bis : list (string * BulkIndexer)) (errs : list error) : list error :=
  match bis with
  | [] => errs
  | (siteID, bi) :: rest =>
      match biClose bi with
      | Some err =>
          closeIndexers rest
            [err; Wrapf err "cannot close indexer for site %s" [ArgString siteID]]
      | None => closeIndexers rest errs
      end
  end.

(** [elastic.Close()]: the context is cancelled, the indexers are closed in
    the order of the map; the result is [errs.ErrorOrNil()], [None] for nil
    and the list of errors otherwise. *)
Definition Close (e : elastic) : elastic * option (list error) :=
  let errs := closeIndexers (map_to_list (bulkIndexers e)) [] in
  (mkElastic (client e) (bulkIndexers e) true,
   match errs with
   | [] => None
   | _ :: _ => Some errs
   end).

(** [elastic.Init(ctx, eng)]: a stub that succeeds. *)
Definition Init (e : elastic) : elastic * option error := (e, None).

End Service.

End Elastic.

(** ** The buffered engine (buffered_engine.go) *)

Module Buffered.

(** [validateSortField(sortBy, possible...)]. *)
Definition validateSortField (sortBy : string) (possible : list string) : bool :=
  match sortBy with
  | EmptyString => false
  | String c rest =>
      let sortBy' := if (Ascii.eqb c "-" || Ascii.eqb c "+")%bool then rest else sortBy in
      existsb (String.eqb sortBy') possible
  end.

(** The interfaces [searchEngine] and [indexerBatch]: a back end for one
    site.  [se_Index] is [indexerBatch.Index(id, doc)], [se_Batch] is
    [searchEngine.Batch(batch)].  A search returns the lines it logs with its
    result, and may panic (see the bleve adapter). *)
Class searchEngine (Index Batch : Type) : Type := {
  se_NewBatch : Index -> Batch;
  se_Index : Batch -> string -> DocumentComment -> Batch * option error;
  se_Batch : Index -> Batch -> Index * option error;
  se_Search : Index -> Request -> list string * outcome (result ResultPage);
  se_Delete : Index -> string -> Index * option error;
  se_Close : Index -> Index * option error
}.

(** [encoding/json] on [DocumentComment]: [json.Marshal], the validity scan
    that [json.Unmarshal] starts with, and the decoding into an allocated
    document. *)
Class jsonCodec : Type := {
  json_Marshal : DocumentComment -> result (list byte);
  json_Valid : list byte -> bool;
  json_Decode : list byte -> DocumentComment -> result DocumentComment
}.

(** [json.Unmarshal(data, v)] for [v] of type [*DocumentComment]; [None] is
    the nil pointer.  The library rejects invalid input first and a nil
    pointer next, so with a nil pointer it returns an error on every input. *)
Definition json_Unmarshal `{jsonCodec} (data : list byte) (v : option DocumentComment)
  : result DocumentComment :=
  if negb (json_Valid data) then Err (LibError "json" "SyntaxError")
  else match v with
       | None => Err (LibError "json" "InvalidUnmarshalError")
       | Some target => json_Decode data target
       end.

(** What sits in the queue: a document or a flusher.  A flusher is named by
    the number of its completion channel; [Flush] makes a new one per call. *)
Inductive queueEntry : Type :=
| QDoc (doc : DocumentComment)
| QFlusher (notifier : nat).

(** A caller that waits at its send on [queueNotifier]: the value it sends
    and, when the caller is a [Flush], the flusher on whose channel it reads
    once the send is taken. *)
Record sender : Type := mkSender {
  sValue : bool;
  sFlusher : option nat
}.

(** The unbuffered channel [queueNotifier]: whether it is closed, and the
    callers that wait at their send, first come first. *)
Record chanBool : Type := mkChan {
  chClosed : bool;
  chSenders : list sender
}.

(** What the engine does to the world outside its own fields, in order. *)
Inductive event : Type :=
| EvIndex (doc : DocumentComment) (err : option error)
| EvBatch (err : option error)
| EvNotify (flusher : nat) (err : option error)
| EvLog (format : string)
| EvTimerReset.

(** Failures of the operating system that the code checks for.  A write
    that fails comes with the number of bytes of its argument that reached
    the file before the error. *)
Record ioFaults : Type := mkFaults {
  createFails : option error;
  writeFails : nat -> option (error * nat);
  openFails : option error;
  readFails : nat -> option error;
  removeFails : option error;
  closeFails : option error
}.

Definition noFaults : ioFaults :=
  mkFaults None (fun _ => None) None (fun _ => None) None None.

(** [bufio.Reader.ReadBytes(0x0)], called until the input ends: the chunks
    that end with the delimiter, in order, and the bytes after the last
    delimiter (which the last call returns together with [io.EOF]). *)
Fixpoint ReadBytes (delim : byte) (buf : list byte) : list (list byte) * list byte :=
  match buf with
  | [] => ([], [])
  | b :: buf' =>
      let '(chunks, tail) := ReadBytes delim buf' in
      if Byte.eqb b delim then ([b] :: chunks, tail)
      else match chunks with
           | chunk :: chunks' => ((b :: chunk) :: chunks', tail)
           | [] => ([], b :: tail)
           end
  end.

(** Whether the [Flush] that made flusher [f] still waits at its send on the
    channel [c]. *)
Definition ownerAtSend (f : nat) (c : chanBool) : bool :=
  existsb (fun x => match sFlusher x with
                    | Some g => Nat.eqb f g
                    | None => false
                    end) (chSenders c).

(** Sends of [err] on the channels of the flushers [fs], one after the other.
    The channels are unbuffered.  The owner of a flusher reads its channel
    once its own send on [queueNotifier] is taken, so a send to a flusher
    whose owner is past that point goes through; a send to a flusher whose
    owner still waits at [queueNotifier] waits for a receive that cannot
    come, since only the sending goroutine, the worker, takes values from
    [queueNotifier].  The result is the events of the sends that went
    through, and the flusher at whose channel the sending stopped, if it
    did. *)
Fixpoint sendDeferred (c : chanBool) (fs : list nat) (err : option error)
  : list event * option nat :=
  match fs with
  | [] => ([], None)
  | f :: fs' =>
      if ownerAtSend f c then ([], Some f)
      else let '(evs, waits) := sendDeferred c fs' err in
           (EvNotify f err :: evs, waits)
  end.

(** Deferred calls run last-in first-out. *)
Definition runDeferred (c : chanBool) (deferred : list nat) (err : option error)
  : list event * option nat :=
  sendDeferred c (rev deferred) err.

Section Engine.

Context {Index Batch : Type} {engine : searchEngine Index Batch} {codec : jsonCodec}.

(** [aheadLogFname] is declared outside the sources at hand; [path.Join]
    is the library's.  [path.Join] returns a clean path, so the path that
    [filepath.Clean] gives to [os.Open] and [os.Create] is the same file. *)
Variable aheadLogFname : string.
Variable path_Join : string -> string -> string.

(** The struct [bufferedEngine], followed by the part of the world it acts
    on: whether its worker has returned (what [shutdownWait] waits for), the
    flusher at whose channel the worker waits to send, if it does, how many
    flusher channels were made, the files, and the trace of events. *)
Record bufferedEngine : Type := mkEngine {
  docQueue : list queueEntry;
  queueNotifier : chanBool;
  index : Index;
  flushEvery : Z;
  flushCount : Z;
  indexPath : string;
  workerExited : bool;
  workerWaits : option nat;
  madeFlushers : nat;
  files : gmap string (list byte);
  trace : list event
}.

Definition setQueue (q : list queueEntry) (s : bufferedEngine) : bufferedEngine :=
  mkEngine q (queueNotifier s) (index s) (flushEvery s) (flushCount s) (indexPath s)
    (workerExited s) (workerWaits s) (madeFlushers s) (files s) (trace s).

Definition setNotifier (c : chanBool) (s : bufferedEngine) : bufferedEngine :=
  mkEngine (docQueue s) c (index s) (flushEvery s) (flushCount s) (indexPath s)
    (workerExited s) (workerWaits s) (madeFlushers s) (files s) (trace s).

Definition setIndex (i : Index) (s : bufferedEngine) : bufferedEngine :=
  mkEngine (docQueue s) (queueNotifier s) i (flushEvery s) (flushCount s) (indexPath s)
    (workerExited s) (workerWaits s) (madeFlushers s) (files s) (trace s).

Definition setExited (s : bufferedEngine) : bufferedEngine :=
  mkEngine (docQueue s) (queueNotifier s) (index s) (flushEvery s) (flushCount s) (indexPath s)
    true (workerWaits s) (madeFlushers s) (files s) (trace s).

Definition setWaits (w : option nat) (s : bufferedEngine) : bufferedEngine :=
  mkEngine (docQueue s) (queueNotifier s) (index s) (flushEvery s) (flushCount s) (indexPath s)
    (workerExited s) w (madeFlushers s) (files s) (trace s).

Definition setMadeFlushers (n : nat) (s : bufferedEngine) : bufferedEngine :=
  mkEngine (docQueue s) (queueNotifier s) (index s) (flushEvery s) (flushCount s) (indexPath s)
    (workerExited s) (workerWaits s) n (files s) (trace s).

Definition setFiles (fs : gmap string (list byte)) (s : bufferedEngine) : bufferedEngine :=
  mkEngine (docQueue s) (queueNotifier s) (index s) (flushEvery s) (flushCount s) (indexPath s)
    (workerExited s) (workerWaits s) (madeFlushers s) fs (trace s).

Definition emit (evs : list event) (s : bufferedEngine) : bufferedEngine :=
  mkEngine (docQueue s) (queueNotifier s) (index s) (flushEvery s) (flushCount s) (indexPath s)
    (workerExited s) (workerWaits s) (madeFlushers s) (files s) (trace s ++ evs).

(** The course of a call from outside the worker.  It returns; or it panics;
    or it comes to a point where it waits, having left the engine in state
    [s], and goes on with [resume] from the state that the engine is in when
    the wait is over.  A call waits at its send on [queueNotifier] until the
    worker takes the value; at its receive on a flusher's channel until the
    worker sends there, and it goes on with the value sent; in
    [shutdownWait.Wait()] until the worker has returned. *)
Inductive call (A : Type) : Type :=
| Returns (a : A)
| Panics (m : error)
| Sends (s : bufferedEngine) (resume : bufferedEngine -> call A)
| Receives (flusher : nat) (s : bufferedEngine)
    (resume : option error -> bufferedEngine -> call A)
| AwaitsWorker (s : bufferedEngine) (resume : bufferedEngine -> call A).

Arguments Returns {A} a.
Arguments Panics {A} m.
Arguments Sends {A} s resume.
Arguments Receives {A} flusher s resume.
Arguments AwaitsWorker {A} s resume.

(** One call after the other. *)
Fixpoint bind {A B : Type} (c : call A) (k : A -> call B) : call B :=
  match c with
  | Returns a => k a
  | Panics m => Panics m
  | Sends s resume => Sends s (fun s' => bind (resume s') k)
  | Receives f s resume => Receives f s (fun err s' => bind (resume err s') k)
  | AwaitsWorker s resume => AwaitsWorker s (fun s' => bind (resume s') k)
  end.


(** The state in which a call stops first: where it waits, or where it
    returns. *)
Definition stateOf {A : Type} (c : call (bufferedEngine * A)) : outcome bufferedEngine :=
  match c with
  | Returns (s, _) => Returned s
  | Panics m => Panicked m
  | Sends s _ => Returned s
  | Receives _ s _ => Returned s
  | AwaitsWorker s _ => Returned s
  end.

(** A send on [queueNotifier]: it panics on a closed channel; otherwise the
    sender joins the callers that wait there, and goes on when the worker
    has taken its value. *)
Definition send {A : Type} (x : sender) (s : bufferedEngine)
  (resume : bufferedEngine -> call A) : call A :=
  if chClosed (queueNotifier s) then Panics (LibError "runtime" "send on closed channel")
  else Sends (setNotifier (mkChan false (chSenders (queueNotifier s) ++ [x])) s) resume.

(** A receive [v, ok = <-queueNotifier]: the value of the first waiting
    sender, who stops waiting; [(false, false)] on a closed channel; [None]
    when the channel is open and nobody sends (the receive is not ready). *)
Definition receive (c : chanBool) : option (bool * bool * chanBool) :=
  match chSenders c with
  | x :: rest => Some (sValue x, true, mkChan (chClosed c) rest)
  | [] => if chClosed c then Some (false, false, c) else None
  end.

(** [IndexDocument(doc)]. *)
Definition IndexDocument (doc : DocumentComment) (s : bufferedEngine)
  : call (bufferedEngine * option error) :=
  let s1 := setQueue (docQueue s ++ [QDoc doc]) s in
  send (mkSender false None) s1 (fun s2 => Returns (s2, None)).

(** The loop of [indexBatch] over the drained queue: the batch, the events,
    and the flushers whose completion is deferred, in the order of their
    [defer] statements. *)
Fixpoint fillBatch (q : list queueEntry) (batch : Batch) : Batch * list event * list nat :=
  match q with
  | [] => (batch, [], [])
  | QDoc val :: q' =>
      let '(batch1, err) := se_Index batch (ID val) val in
      let '(batch2, evs, deferred) := fillBatch q' batch1 in
      let logged := match err with
                    | Some _ => [EvLog "[ERROR] error while adding doc %q to batch %v"]
                    | None => []
                    end in
      (batch2, EvIndex val err :: logged ++ evs, deferred)
  | QFlusher f :: q' =>
      let '(batch2, evs, deferred) := fillBatch q' batch in
      (batch2, evs, f :: deferred)
  end.

(** [indexBatch()].  The deferred sends to the flushers come last, after the
    batch was given to the back end; when one of them has to wait, the
    worker waits inside [indexBatch]. *)
Definition indexBatch (s : bufferedEngine) : bufferedEngine :=
  match docQueue s with
  | [] => s
  | q =>
      let '(batch, evs, deferred) := fillBatch q (se_NewBatch (index s)) in
      let '(index', err) := se_Batch (index s) batch in
      let logged := match err with
                    | Some _ => [EvLog "[ERROR] error while indexing batch, %v"]
                    | None => []
                    end in
      let '(notified, waits) := runDeferred (queueNotifier s) deferred None in
      setWaits waits
        (emit (evs ++ EvBatch err :: logged ++ notified) (setIndex index' (setQueue [] s)))
  end.

(** [getAheadLogPath()]. *)
Definition getAheadLogPath (s : bufferedEngine) : string :=
  path_Join (indexPath s) aheadLogFname.

(** The loop of [writeAheadLog] over the queue: [err] is the variable of
    that name, [n] counts the calls of [f.Write]; the result is the bytes
    that reached the file, the final [err], and the deferred flushers.  The
    code drops the count that [f.Write] returns, so the bytes that a failed
    write did put in the file stay there. *)
Fixpoint writeEntries (io : ioFaults) (q : list queueEntry) (err : option error) (n : nat)
  : list byte * option error * list nat :=
  match q with
  | [] => ([], err, [])
  | QDoc val :: q' =>
      match err with
      | Some _ => writeEntries io q' err n
      | None =>
          match json_Marshal val with
          | Err e => writeEntries io q' (Some e) n
          | Ok data =>
              let data' := data ++ [x00] in
              match writeFails io n with
              | Some (e, count) =>
                  let '(written, err', deferred) := writeEntries io q' (Some e) (S n) in
                  (firstn count data' ++ written, err', deferred)
              | None =>
                  let '(written, err', deferred) := writeEntries io q' None (S n) in
                  (data' ++ written, err', deferred)
              end
          end
      end
  | QFlusher f :: q' =>
      let '(written, err', deferred) := writeEntries io q' err n in
      (written, err', f :: deferred)
  end.

(** [writeAheadLog()].  The deferred calls run in the reverse of the order
    of their [defer] statements: the sends to the flushers, then the unlock,
    then the close of the file.  When a send has to wait, the worker waits
    inside [writeAheadLog] and the file is not closed. *)
Definition writeAheadLog (io : ioFaults) (s : bufferedEngine) : bufferedEngine :=
  let aheadLogPath := getAheadLogPath s in
  let s1 := match files s !! aheadLogPath with
            | Some _ => emit [EvLog "[ERROR] file %q already exists and would be rewritten"] s
            | None => s
            end in
  match createFails io with
  | Some _ => emit [EvLog "[ERROR] error %v opening log file %q"] s1
  | None =>
      let '(written, err, deferred) := writeEntries io (docQueue s1) None 0 in
      let logged := match err with
                    | Some _ => [EvLog "[ERROR] error %v writing log file"]
                    | None => []
                    end in
      let '(notified, waits) :=
        runDeferred (queueNotifier s1) deferred (Some (Errorf "indexer closing" [])) in
      let closing := match waits, closeFails io with
                     | None, Some _ => [EvLog "[ERROR] error %v closing log file %q"]
                     | _, _ => []
                     end in
      setWaits waits
        (emit (logged ++ notified ++ closing)
           (setFiles (<[aheadLogPath := written]> (files s1)) (setQueue [] s1)))
  end.

(** The worker's [select]: which case it takes. *)
Inductive selected : Type :=
| TimerC
| NotifierC.

(** One iteration of the loop of [indexDocumentWorker]: the new state and
    the new value of [cont]; [None] when the selected case is not ready.
    The timer is reset after [indexBatch] has returned, so not when the
    worker waits inside it. *)
Definition workerIteration (sel : selected) (s : bufferedEngine)
  : option (bufferedEngine * bool) :=
  match sel with
  | TimerC =>
      let s1 := indexBatch s in
      Some (match workerWaits s1 with
            | Some _ => s1
            | None => emit [EvTimerReset] s1
            end, true)
  | NotifierC =>
      match receive (queueNotifier s) with
      | None => None
      | Some (force, cont, c) =>
          let s1 := setNotifier c s in
          let full := (flushCount s1 <=? Z.of_nat (length (docQueue s1)))%Z in
          Some (if (force || full)%bool then indexBatch s1 else s1, cont)
      end
  end.

(** The return of the worker once [writeAheadLog] has returned, so not
    while the worker waits inside it. *)
Definition ended (s : bufferedEngine) : bufferedEngine :=
  match workerWaits s with
  | Some _ => s
  | None => setExited s
  end.

(** [indexDocumentWorker()], one step of it: an iteration of the loop and,
    when that iteration ends the loop, the write of the ahead log and the
    return.  A worker that has returned does nothing, and neither does a
    worker that waits at the channel of a flusher. *)
Definition indexDocumentWorker (sel : selected) (io : ioFaults) (s : bufferedEngine)
  : bufferedEngine :=
  if workerExited s then s
  else match workerWaits s with
       | Some _ => s
       | None =>
           match workerIteration sel s with
           | None => s
           | Some (s1, cont) =>
               match workerWaits s1 with
               | Some _ => s1
               | None =>
                   if cont then s1
                   else
                     ended
                       (writeAheadLog io (emit [EvLog "[INFO] shutdown bleve indexer worker"] s1))
               end
           end
       end.

(** [Flush()]: the flusher is queued, [true] is sent on [queueNotifier], and
    the call returns what arrives on the flusher's channel. *)
Definition Flush (s : bufferedEngine) : call (bufferedEngine * option error) :=
  let f := madeFlushers s in
  let s1 := setQueue (docQueue s ++ [QFlusher f]) (setMadeFlushers (S f) s) in
  send (mkSender true (Some f)) s1
    (fun s2 => Receives f s2 (fun err s3 => Returns (s3, err))).

(** What arrives on the channel of flusher [f], which is what its [Flush]
    returns: the first value sent there, [None] while nothing was sent. *)
Fixpoint delivered (f : nat) (tr : list event) : option (option error) :=
  match tr with
  | [] => None
  | EvNotify g err :: tr' => if Nat.eqb f g then Some err else delivered f tr'
  | _ :: tr' => delivered f tr'
  end.

Definition flushResult (f : nat) (s : bufferedEngine) : option (option error) :=
  delivered f (trace s).

(** [Search(req)]. *)
Definition Search (req : Request) (s : bufferedEngine)
  : bufferedEngine * outcome (result ResultPage) :=
  let '(logged, res) := se_Search (index s) req in
  (emit (map EvLog ("[INFO] searching %v" :: logged)) s, res).

(** [Delete(commentID)]. *)
Definition Delete (commentID : string) (s : bufferedEngine) : bufferedEngine * option error :=
  match se_Delete (index s) commentID with
  | (index', Some err) =>
      (setIndex index' s,
       Some (Wrapf err "cannot detele comment %q from search index" [ArgString commentID]))
  | (index', None) => (setIndex index' s, None)
  end.

(** [Close()]: closing a closed channel panics, and so does every sender
    that waits on the channel being closed; after the back end is closed the
    call waits for the worker, and returns the error of the back end. *)
Definition Close (s : bufferedEngine) : call (bufferedEngine * option error) :=
  if chClosed (queueNotifier s) then Panics (LibError "runtime" "close of closed channel")
  else match chSenders (queueNotifier s) with
       | _ :: _ => Panics (LibError "runtime" "send on closed channel")
       | [] =>
           let '(index', err) := se_Close (index s) in
           AwaitsWorker (setIndex index' (setNotifier (mkChan true []) s))
             (fun s2 => Returns (s2, err))
       end.

(** The loop of [readAheadLog] over the chunks that [ReadBytes] returns;
    [k] counts the iterations, [ctxDone k] tells whether the context is done
    when iteration [k] looks at it.  The document pointer [doc] is declared
    and never allocated, so it is nil when [json.Unmarshal] gets it. *)
Fixpoint readRecords (ctxDone : nat -> bool) (io : ioFaults) (chunks : list (list byte))
  (k : nat) (s : bufferedEngine) : call (bufferedEngine * option error) :=
  if ctxDone k then Returns (s, Some (Errorf "reading ahead log interrupted" []))
  else
    match readFails io k with
    | Some e => Returns (s, Some e)
    | None =>
        match chunks with
        | [] => Returns (s, None)
        | data :: chunks' =>
            let data' := removelast data in
            let doc : option DocumentComment := None in
            match json_Unmarshal data' doc with
            | Err e => Returns (s, Some e)
            | Ok d =>
                bind (IndexDocument d s)
                  (fun '(s1, err) =>
                     match err with
                     | Some e => Returns (s1, Some e)
                     | None => readRecords ctxDone io chunks' (S k) s1
                     end)
            end
        end
    end.

(** [readAheadLog(ctx, reader)] for a reader over [content]. *)
Definition readAheadLog (ctxDone : nat -> bool) (io : ioFaults) (content : list byte)
  (s : bufferedEngine) : call (bufferedEngine * option error) :=
  readRecords ctxDone io (fst (ReadBytes x00 content)) 0 s.

(** [Init(ctx)].  The results are unnamed, so the deferred calls, which
    assign to [err], do not change what is returned. *)
Definition Init (ctxDone : nat -> bool) (io : ioFaults) (s : bufferedEngine)
  : call (bufferedEngine * (bool * option error)) :=
  let aheadLogPath := getAheadLogPath s in
  match files s !! aheadLogPath with
  | None => Returns (emit [EvLog "[INFO] log file %q does not exists"] s, (false, None))
  | Some content =>
      match openFails io with
      | Some e => Returns (s, (false, Some e))
      | None =>
          bind (readAheadLog ctxDone io content s)
            (fun '(s1, err) =>
               let s2 := match err with
                         | Some _ => s1
                         | None =>
                             match removeFails io with
                             | Some _ => emit [EvLog "[ERROR] error %v deleting log file %q"] s1
                             | None => setFiles (delete aheadLogPath (files s1)) s1
                             end
                         end in
               let s3 := match closeFails io with
                         | Some _ => emit [EvLog "[ERROR] error %v closing log file %q"] s2
                         | None => s2
                         end in
               Returns (s3, (true, err)))
      end
  end.

(** The calls that reach one engine, as they interleave.  Each is one step:
    a call from outside up to the point where it waits or returns, or one
    step of the worker.  What [IndexDocument], [Flush] and [Close] do after
    their wait is to return, which changes nothing in the engine. *)
Inductive op : Type :=
| OpIndexDocument (doc : DocumentComment)
| OpFlush
| OpDelete (commentID : string)
| OpWorker (sel : selected) (io : ioFaults)
| OpClose.

Definition step (o : op) (s : bufferedEngine) : outcome bufferedEngine :=
  match o with
  | OpIndexDocument doc => stateOf (IndexDocument doc s)
  | OpFlush => stateOf (Flush s)
  | OpDelete commentID => Returned (fst (Delete commentID s))
  | OpWorker sel io => Returned (indexDocumentWorker sel io s)
  | OpClose => stateOf (Close s)
  end.

(** A run stops at the first panic, which ends the program. *)
Fixpoint run (ops : list op) (s : bufferedEngine) : bufferedEngine * option error :=
  match ops with
  | [] => (s, None)
  | o :: ops' =>
      match step o s with
      | Panicked m => (s, Some m)
      | Returned s1 => run ops' s1
      end
  end.

End Engine.

Arguments Returns {Index A} a.
Arguments Panics {Index A} m.
Arguments Sends {Index A} s resume.
Arguments Receives {Index A} flusher s resume.
Arguments AwaitsWorker {Index A} s resume.

End Buffered.

(** ** The local back end (bleve adapter) *)

Module Bleve.

Definition urlFieldName : string := "url".
Definition textFieldName : string := "text".

(** [analyzerMapping]: the analyzers that can be chosen, with the names the
    library knows them by. *)
Definition analyzerMapping : gmap string string :=
  <["standard" := "standard"]> (<["english" := "en"]> (<["russian" := "ru"]> ∅)).

(** The loop [for k := range analyzerMapping] that collects the keys.  Go
    leaves the order of a map iteration open; the order here is the map's. *)
Definition analyzerNames : list string := (map_to_list analyzerMapping).*1.

(** A stored field of a hit has the type [interface{}]. *)
Inductive fieldValue : Type :=
| FString (s : string)
| FNumber (z : Z)
| FBool (b : bool)
| FNil.

(** [search.Location], [search.DocumentMatch] and [bleve.SearchResult].  The
    term-to-locations map of a field is a list of pairs, in the order in
    which the adapter's [range] visits it. *)
Record Location : Type := mkLocation { locStart : Z; locEnd : Z }.

Record DocumentMatch : Type := mkHit {
  hitID : string;
  hitFields : gmap string fieldValue;
  hitLocations : gmap string (list (string * list Location))
}.

Record SearchResult : Type := mkSearchResult {
  srTotal : Z;
  srHits : list DocumentMatch
}.

(** [bleve.SearchRequest]: [srSort = None] is the order the library starts
    with; [SortBy(order)] replaces it. *)
Record SearchRequest : Type := mkSearchRequest {
  srQuery : string;
  srSize : Z;
  srFrom : Z;
  srExplain : bool;
  srSort : option (list string);
  srFields : list string;
  srHighlight : option (list string)
}.

(** [mapping.FieldMapping] and the index mapping that [createIndexMapping]
    builds. *)
Record FieldMapping : Type := mkFieldMapping {
  fmStore : bool;
  fmAnalyzer : string;
  fmIncludeTermVectors : bool
}.

Record IndexMapping : Type := mkIndexMapping {
  imCustomAnalyzers : list (string * (string * string * list string));
  imDocuments : list (string * list (string * FieldMapping))
}.

(** [os.Stat], as [newBleve] looks at it. *)
Inductive statResult : Type :=
| StatNotExist
| StatError (e : error)
| StatFound (isDir : bool).

(** The calls into the bleve library. *)
Class bleveLib (BIndex BBatch : Type) : Type := {
  bleve_New : string -> IndexMapping -> result BIndex;
  bleve_Open : string -> result BIndex;
  bleve_NewBatch : BIndex -> BBatch;
  bleve_BatchIndex : BBatch -> string -> DocumentComment -> BBatch * option error;
  bleve_Batch : BIndex -> BBatch -> BIndex * option error;
  bleve_Search : BIndex -> SearchRequest -> result SearchResult;
  bleve_Delete : BIndex -> string -> BIndex * option error;
  bleve_Close : BIndex -> BIndex * option error
}.

(** The type assertion [r.Fields[urlFieldName].(string)]. *)
Definition urlOf (r : DocumentMatch) : option string :=
  match hitFields r !! urlFieldName with
  | Some (FString url) => Some url
  | _ => None
  end.

(** The two inner loops of [convertBleveSerp] over the highlight of a hit. *)
Definition matchesOf (highlight : list (string * list Location)) : list TokenMatch :=
  flat_map (fun termLocs => map (fun loc => mkTokenMatch (locStart loc) (locEnd loc)) (snd termLocs))
    highlight.

(** The loop of [convertBleveSerp] over the hits. *)
Fixpoint convertHits (hits : list DocumentMatch) (docs : list ResultDoc)
  : outcome (list ResultDoc) :=
  match hits with
  | [] => Returned docs
  | r :: hits' =>
      match urlOf r with
      | None => Panicked (Errorf "cannot find %q in %v" [ArgString urlFieldName])
      | Some url =>
          let matches := match hitLocations r !! textFieldName with
                         | Some highlight => matchesOf highlight
                         | None => []
                         end in
          convertHits hits' (docs ++ [mkResultDoc (hitID r) matches url])
      end
  end.

(** [convertBleveSerp(bleveResult)]. *)
Definition convertBleveSerp (bleveResult : SearchResult) : outcome ResultPage :=
  match convertHits (srHits bleveResult) [] with
  | Panicked m => Panicked m
  | Returned docs => Returned (mkResultPage (srTotal bleveResult) docs)
  end.

(** [textMapping(analyzer, doStore)]. *)
Definition textMapping (analyzer : string) (doStore : bool) : FieldMapping :=
  mkFieldMapping doStore analyzer true.

(** [commentDocumentMapping(textAnalyzer)]. *)
Definition commentDocumentMapping (textAnalyzer : string) : list (string * FieldMapping) :=
  [(textFieldName, textMapping textAnalyzer false);
   ("username", textMapping "keyword_lower" true);
   (urlFieldName, textMapping "keyword_lower" true)].

(** The first part of [bleveIndexer.Search]: the request it builds for the
    library, and the warning it logs. *)
Definition searchRequest (req : Request) : SearchRequest * list string :=
  let bReq := mkSearchRequest (Query req) (Limit req) (From req) false None [] None in
  let '(sort, logged) :=
    if Buffered.validateSortField (SortBy req) ["timestamp"] then (Some [SortBy req], [])
    else if negb (String.eqb (SortBy req) EmptyString) then (None, ["[WARN] unknown sort field %q"])
    else (None, []) in
  (mkSearchRequest (srQuery bReq) (srSize bReq) (srFrom bReq) (srExplain bReq) sort
     (srFields bReq ++ [urlFieldName]) (Some [textFieldName]),
   logged).

(** [encoding/hex]: the table of digits and [hex.EncodeToString]. *)
Definition hextable : list ascii := list_ascii_of_string "0123456789abcdef".

Definition hexDigit (n : N) : ascii := nth (N.to_nat n) hextable "0"%char.

Definition hexByte (v : byte) : string :=
  String (hexDigit (N.shiftr (Byte.to_N v) 4))
    (String (hexDigit (N.land (Byte.to_N v) 15)) EmptyString).

Fixpoint EncodeToString (src : list byte) : string :=
  match src with
  | [] => EmptyString
  | v :: src' => (hexByte v ++ EncodeToString src')%string
  end.

(** [hash/fnv]: the state of [fnv.New32()] is the offset basis; [Sum(in)]
    appends the four bytes of the state, most significant first, to [in]
    and hashes nothing. *)
Definition fnvOffset32 : N := 2166136261%N.

Definition byteOf (n : N) : byte :=
  match Byte.of_N (N.land n 255) with
  | Some b => b
  | None => x00
  end.

Definition fnv32Sum (state : N) (input : list byte) : list byte :=
  input ++ [byteOf (N.shiftr state 24); byteOf (N.shiftr state 16);
            byteOf (N.shiftr state 8); byteOf state].

(** The closure [encodeSiteID] of [newBleveService]. *)
Definition encodeSiteID (siteID : string) : string :=
  let h := fnv32Sum fnvOffset32 (list_byte_of_string siteID) in
  EncodeToString h.

Section Adapter.

Context {BIndex BBatch : Type} {lib : bleveLib BIndex BBatch}.

(** [commentDocType] is declared outside the sources at hand; [os.Stat] on
    the index directory is the environment's. *)
Variable commentDocType : string.
Variable os_Stat : string -> statResult.

(** [createIndexMapping(textAnalyzer)]. *)
Definition createIndexMapping (textAnalyzer : string) : IndexMapping :=
  mkIndexMapping [("keyword_lower", ("custom", "single", ["to_lower"]))]
    [(commentDocType, commentDocumentMapping textAnalyzer)].

(** [bleveIndexer.Search(req)]. *)
Definition Search (idx : BIndex) (req : Request) : list string * outcome (result ResultPage) :=
  let '(bReq, logged) := searchRequest req in
  match bleve_Search idx bReq with
  | Err err => (logged, Returned (Err (Wrap err "bleve search error")))
  | Ok serp =>
      (logged ++ ["[INFO] found %d documents for query %q in %s"],
       match convertBleveSerp serp with
       | Panicked m => Panicked m
       | Returned page => Returned (Ok page)
       end)
  end.

(** The type [bleveIndexer] with its methods is a [searchEngine]. *)
#[export] Instance bleveIndexer : Buffered.searchEngine BIndex BBatch := {|
  Buffered.se_NewBatch := bleve_NewBatch;
  Buffered.se_Index := bleve_BatchIndex;
  Buffered.se_Batch := bleve_Batch;
  Buffered.se_Search := Search;
  Buffered.se_Delete := bleve_Delete;
  Buffered.se_Close := bleve_Close
|}.

(** [newBleve(indexPath, analyzer)].  The engine starts with an empty queue
    and an open notifier, and its worker runs; [fs] is the file system the
    engine will act on. *)
Definition newBleve (fs : gmap string (list byte)) (indexPath analyzer : string)
  : result (Buffered.bufferedEngine (Index := BIndex)) :=
  match analyzerMapping !! analyzer with
  | None =>
      Err (Errorf "Unknown analyzer: %q. Available analyzers for bleve: %v"
             [ArgString analyzer; ArgStrings analyzerNames])
  | Some name =>
      let start (opened : result BIndex) (logged : list string) :=
        match opened with
        | Err err => Err (Wrap err "cannot create/open index")
        | Ok idx =>
            Ok (Buffered.mkEngine [] (Buffered.mkChan false []) idx
                  (2 * 1000000000)%Z 100%Z indexPath false None 0 fs
                  (map Buffered.EvLog (logged ++ ["[INFO] start bleve indexer worker"])))
        end in
      match os_Stat indexPath with
      | StatNotExist =>
          start (bleve_New indexPath (createIndexMapping name))
            ["[INFO] creating new search index %s"]
      | StatFound isDir =>
          if negb isDir then Err (Errorf "index path shoule be a directory" [])
          else start (bleve_Open indexPath) ["[INFO] opening existing search index %s"]
      | StatError errOpen => start (Err errOpen) []
      end
  end.

(** [path.Join] is the library's. *)
Variable path_Join : string -> string -> string.

(** The loop of [newBleveService] over the sites. *)
Fixpoint makeShards (fs : gmap string (list byte)) (indexPath analyzer : string)
  (sites : list string) (shards : gmap string (Buffered.bufferedEngine (Index := BIndex)))
  : result (gmap string (Buffered.bufferedEngine (Index := BIndex))) :=
  match sites with
  | [] => Ok shards
  | siteID :: rest =>
      let fpath := path_Join indexPath (encodeSiteID siteID) in
      match newBleve fs fpath analyzer with
      | Err err => Err err
      | Ok eng => makeShards fs indexPath analyzer rest (<[siteID := eng]> shards)
      end
  end.

(** [newBleveService(params)], up to the shards that it passes to
    [newMultiplexer], which is outside the sources at hand. *)
Definition newBleveService (fs : gmap string (list byte)) (params : Elastic.SearcherParams)
  : result (gmap string (Buffered.bufferedEngine (Index := BIndex))) :=
  makeShards fs (Elastic.pIndexPath params) (Elastic.pAnalyzer params)
    (Elastic.pSites params) ∅.

End Adapter.

End Bleve.

(** ** What the specification says about a flush, over traces *)

Module Barrier.

Import Buffered.





(** The flushers that the engine knows are the ones it made. *)
Definition flushersKnown {Index : Type} (s : bufferedEngine (Index := Index)) : Prop :=
  (forall g, In (QFlusher g) (docQueue s) -> g < madeFlushers s)
  /\ (forall g e, In (EvNotify g e) (trace s) -> g < madeFlushers s).








End Barrier.

(** ** What the specification says about accepting a document *)

Module Blocking.

Import Buffered.




End Blocking.

(** ** What the specification says about unknown sites *)

Module Sites.

Import Elastic.

(** The error for a site that has no index. *)
Definition siteNotFound (siteID : string) : error :=
  Errorf "index for site %s does not found" [ArgString siteID].

(** "Unknown siteID on any operation returns a site-not-found error without
    mutating any shard", for the operations of the remote service that name
    a site: [Delete], [IndexDocument] (whose site is the comment's) and
    [Flush].  The error may come wrapped; a document that cannot be encoded
    is left aside. *)
Definition unknownSiteRefused {Client : Type}
  (DocFromComment : Comment -> DocumentComment)
  (json_Marshal : DocumentComment -> result (list byte)) : Prop :=
  forall (e : elastic (Client := Client)) (siteID : string),
    bulkIndexers e !! siteID = None ->
    (forall commentID,
        exists err,
          Delete siteID commentID e = (e, Some err) /\ Cause err = siteNotFound siteID)
    /\ (forall commentID comment data,
          locSiteID (cLocator comment) = siteID ->
          json_Marshal (DocFromComment comment) = Ok data ->
          exists err,
            IndexDocument DocFromComment json_Marshal commentID comment e = (e, Some err)
            /\ Cause err = siteNotFound siteID)
    /\ (exists err, Flush siteID e = (e, Some err) /\ Cause err = siteNotFound siteID).

End Sites.

(** ** Stand-ins for the parts outside the package, used in the examples *)

Module Examples.

Import Buffered.

(** A back end in memory: the documents committed so far, and whether a
    commit can succeed. *)
Record memIndex : Type := mkMem {
  memDocs : list DocumentComment;
  memWritable : bool
}.

Definition memBatch (idx : memIndex) (batch : list DocumentComment) : memIndex * option error :=
  if memWritable idx then (mkMem (memDocs idx ++ batch) true, None)
  else (idx, Some (LibError "index" "cannot write the batch")).

#[export] Instance memEngine : searchEngine memIndex (list DocumentComment) := {|
  se_NewBatch := fun _ => [];
  se_Index := fun batch _ doc => (batch ++ [doc], None);
  se_Batch := memBatch;
  se_Search := fun idx _ =>
    ([], Returned (Ok (mkResultPage (Z.of_nat (length (memDocs idx)))
                         (map (fun d => mkResultDoc (ID d) [] (URL d)) (memDocs idx)))));
  se_Delete := fun idx id =>
    (mkMem (filter (fun d => negb (String.eqb (ID d) id)) (memDocs idx)) (memWritable idx), None);
  se_Close := fun idx => (mkMem (memDocs idx) false, None)
|}.

Definition bytesOf (s : string) : list byte := map byte_of_ascii (list_ascii_of_string s).

(** An encoding that writes the identifier and the URL of a document. *)
#[export] Instance plainCodec : jsonCodec := {|
  json_Marshal := fun d => Ok (bytesOf ("{" ++ ID d ++ "," ++ URL d ++ "}")%string);
  json_Valid := fun _ => true;
  json_Decode := fun _ target => Ok target
|}.

Definition docFromComment (c : Comment) : DocumentComment :=
  mkDoc (cID c) (locURL (cLocator c)) (cText c) (cUser c) (cTimestamp c).

Definition joinPath (dir name : string) : string := (dir ++ "/" ++ name)%string.

Definition doc1 : DocumentComment := mkDoc "c1" "https://example.com/post" "hello world" "dev" 1.

Definition comment3 : Comment :=
  mkComment "c3" (mkLocator "s3" "https://example.com/post") "hello" "dev" 3.

(** An engine as [newBleve] makes it, over the back end in memory. *)
Definition memEngineAt (writable : bool) (fs : gmap string (list byte))
  : bufferedEngine (Index := memIndex) :=
  mkEngine [] (mkChan false []) (mkMem [] writable) 2000000000 100 "/idx/s1" false None 0 fs [].

(** A remote service with one site. *)
Definition oneSite : Elastic.elastic (Client := unit) :=
  Elastic.mkElastic tt (<["s1" := Elastic.mkBulkIndexer "s1" []]> ∅) false.

(** The bleve library over the back end in memory. *)
#[export] Instance memBleve : Bleve.bleveLib memIndex (list DocumentComment) := {|
  Bleve.bleve_New := fun _ _ => Ok (mkMem [] true);
  Bleve.bleve_Open := fun _ => Ok (mkMem [] true);
  Bleve.bleve_NewBatch := fun _ => [];
  Bleve.bleve_BatchIndex := fun batch _ doc => (batch ++ [doc], None);
  Bleve.bleve_Batch := memBatch;
  Bleve.bleve_Search := fun idx _ =>
    Ok (Bleve.mkSearchResult (Z.of_nat (length (memDocs idx)))
          (map (fun d => Bleve.mkHit (ID d) (<["url" := Bleve.FString (URL d)]> ∅) ∅) (memDocs idx)));
  Bleve.bleve_Delete := fun idx id =>
    (mkMem (filter (fun d => negb (String.eqb (ID d) id)) (memDocs idx)) (memWritable idx), None);
  Bleve.bleve_Close := fun idx => (mkMem (memDocs idx) false, None)
|}.

End Examples.

(** ** Accounts of the queue and the trace *)

Module Ledger.

Import Buffered.

(** The documents of a queue, in order. *)
Fixpoint queuedDocs (q : list queueEntry) : list DocumentComment :=
  match q with
  | [] => []
  | QDoc d :: q' => d :: queuedDocs q'
  | QFlusher _ :: q' => queuedDocs q'
  end.

(** The flushers of a queue, in order. *)
Fixpoint queuedFlushers (q : list queueEntry) : list nat :=
  match q with
  | [] => []
  | QDoc _ :: q' => queuedFlushers q'
  | QFlusher f :: q' => f :: queuedFlushers q'
  end.

(** The documents that were given to [batch.Index], in order. *)
Fixpoint indexedDocs (tr : list event) : list DocumentComment :=
  match tr with
  | [] => []
  | EvIndex d _ :: tr' => d :: indexedDocs tr'
  | _ :: tr' => indexedDocs tr'
  end.

(** The flushers that were answered, in order, with their answers. *)
Fixpoint answers (tr : list event) : list (nat * option error) :=
  match tr with
  | [] => []
  | EvNotify f err :: tr' => (f, err) :: answers tr'
  | _ :: tr' => answers tr'
  end.

(** The flushers among [fs], taken in order, up to the first whose owner
    still waits at its send on the channel [c]. *)
Fixpoint reached (c : chanBool) (fs : list nat) : list nat :=
  match fs with
  | [] => []
  | f :: fs' => if ownerAtSend f c then [] else f :: reached c fs'
  end.

(** The documents that a list of calls hands to [IndexDocument], in order. *)
Fixpoint acceptedDocs (ops : list op) : list DocumentComment :=
  match ops with
  | [] => []
  | OpIndexDocument d :: ops' => d :: acceptedDocs ops'
  | _ :: ops' => acceptedDocs ops'
  end.

(** The record that [writeAheadLog] writes for a document: its encoding and
    a zero byte; nothing when the document cannot be encoded. *)
Definition logRecord {codec : jsonCodec} (d : DocumentComment) : list byte :=
  match json_Marshal d with
  | Ok data => data ++ [x00]
  | Err _ => []
  end.

(** The ahead log of a list of documents. *)
Definition logOf {codec : jsonCodec} (docs : list DocumentComment) : list byte :=
  flat_map logRecord docs.

(** No flusher is both answered and queued, or answered twice, or queued
    twice, and every flusher is one that [Flush] made. *)
Definition tidy {Index : Type} (s : bufferedEngine (Index := Index)) : Prop :=
  NoDup (map fst (answers (trace s)) ++ queuedFlushers (docQueue s))
  /\ forall g, In g (map fst (answers (trace s)) ++ queuedFlushers (docQueue s)) ->
               g < madeFlushers s.

End Ledger.

(** ** The HTTP handlers of the search (package api) *)

Module Api.

(** [strconv.ParseInt(s, 10, 64)], which is also [strconv.Atoi] where [int]
    has 64 bits: an optional sign and one or more decimal digits; a value
    outside the 64-bit range is an error. *)
Definition isDigit (c : ascii) : bool :=
  ((48 <=? N_of_ascii c) && (N_of_ascii c <=? 57))%N.

Fixpoint digitsValue (s : string) (acc : Z) : option Z :=
  match s with
  | EmptyString => Some acc
  | String c s' =>
      if isDigit c then digitsValue s' (10 * acc + (Z.of_N (N_of_ascii c) - 48))%Z
      else None
  end.

Definition ErrSyntax : error := LibError "strconv" "invalid syntax".
Definition ErrRange : error := LibError "strconv" "value out of range".

Definition ParseInt (s : string) : result Z :=
  match s with
  | EmptyString => Err ErrSyntax
  | String c rest =>
      let neg := Ascii.eqb c "-" in
      let digits := if (Ascii.eqb c "+" || Ascii.eqb c "-")%bool then rest else s in
      match digits with
      | EmptyString => Err ErrSyntax
      | String _ _ =>
          match digitsValue digits 0 with
          | None => Err ErrSyntax
          | Some un =>
              if neg then (if (2 ^ 63 <? un)%Z then Err ErrRange else Ok (- un)%Z)
              else (if (2 ^ 63 <=? un)%Z then Err ErrRange else Ok un)
          end
      end
  end.

Definition Atoi (s : string) : result Z := ParseInt s.

(** [url.Values] and its [Get]: the first value of the key, or the empty
    string. *)
Definition Get (q : gmap string (list string)) (key : string) : string :=
  match q !! key with
  | Some (v :: _) => v
  | _ => EmptyString
  end.

(** A [time.Time], as seconds and nanoseconds since the Unix epoch. *)
Record Time : Type := mkTime { tSec : Z; tNsec : Z }.

(** The zero value [time.Time{}]: the first of January of the year 1. *)
Definition zeroTime : Time := mkTime (-62135596800) 0.

(** [time.Unix(sec, nsec)]: nanoseconds outside of a second are carried
    into the seconds.  Go's [/] rounds towards zero. *)
Definition time_Unix (sec nsec : Z) : Time :=
  if ((nsec <? 0) || (1000000000 <=? nsec))%Z then
    let n := (nsec ÷ 1000000000)%Z in
    let sec1 := (sec + n)%Z in
    let nsec1 := (nsec - n * 1000000000)%Z in
    if (nsec1 <? 0)%Z then mkTime (sec1 - 1) (nsec1 + 1000000000)
    else mkTime sec1 nsec1
  else mkTime sec nsec.

(** [public.parseSince(r)], on the query of the request. *)
Definition parseSince (q : gmap string (list string)) : result Time :=
  let since := Get q "since" in
  if String.eqb since EmptyString then Ok zeroTime
  else match ParseInt since with
       | Err e => Err (Wrap e "can't translate since parameter")
       | Ok unixTS => Ok (time_Unix (unixTS ÷ 1000) (1000000 * Z.rem unixTS 1000))
       end.

(** The codes of package [rest] that the search handler sends. *)
Inductive errCode : Type :=
| ErrActionRejected
| ErrInternal.

(** What a handler writes: [rest.SendErrorJSON] with status, error, details
    and code, or [R.RenderJSONFromBytes] with the data. *)
Inductive response : Type :=
| SendErrorJSON (status : Z) (err : error) (details : string) (code : errCode)
| RenderJSON (data : list byte).

Section Handlers.

(** The data service, the encoder and the tests [errors.Is] against the two
    errors of package [service]; [Page] is [service.SearchResultPage]. *)
Context {Page : Type}.
Variable dataService_Search : string -> string -> string -> Z -> Z -> result Page.
Variable encodeJSONWithHTML : Page -> result (list byte).
Variable isSearchNotReady : error -> bool.
Variable isSearchNotEnabled : error -> bool.

(** [public.searchQueryCtrl(w, r)], on the query of the request; [cached]
    is what the cache holds under the key of the request, which [cache.Get]
    returns without calling its loader. *)
Definition searchQueryCtrl (q : gmap string (list string)) (cached : option (list byte))
  : response :=
  let maxSearchLimit := 100%Z in
  let siteID := Get q "site" in
  let query := Get q "query" in
  let sortBy := Get q "sort" in
  let limit := match Atoi (Get q "limit") with
               | Ok v => v
               | Err _ => 20%Z
               end in
  let skip := match Atoi (Get q "skip") with
              | Ok v => v
              | Err _ => 0%Z
              end in
  if ((limit <? 1) || (maxSearchLimit <? limit))%Z then
    SendErrorJSON 400 (Errorf "wrong param" [])
      "wrong limit value. expected to be from 1 to 100" ErrActionRejected
  else
    let loaded :=
      match cached with
      | Some data => Ok data
      | None =>
          match dataService_Search siteID query sortBy skip limit with
          | Err searchErr => Err searchErr
          | Ok comments => encodeJSONWithHTML comments
          end
      end in
    match loaded with
    | Err err =>
        if isSearchNotReady err then
          SendErrorJSON 400 err "can't perform search request" ErrActionRejected
        else if isSearchNotEnabled err then
          SendErrorJSON 400 err "can't perform search request" ErrActionRejected
        else SendErrorJSON 500 err "can't perform search request" ErrInternal
    | Ok data => RenderJSON data
    end.

End Handlers.

End Api.

(** ** More stand-ins, for the examples of the further properties *)

Module Samples.

Import Buffered Examples.

Definition doc2 : DocumentComment := mkDoc "c2" "https://example.com/post" "goodbye" "dev" 2.


(** An engine with two documents and a flusher in its queue. *)
Definition queued : bufferedEngine (Index := memIndex) :=
  setQueue [QDoc doc1; QFlusher 0; QDoc doc2] (setMadeFlushers 1 (memEngineAt true ∅)).

(** An engine with a hundred documents in its queue. *)
Definition full : bufferedEngine (Index := memIndex) :=
  setQueue (repeat (QDoc doc1) 100) (memEngineAt true ∅).

(** A remote service with two sites, and a library whose indexer of the
    second site cannot be closed. *)
Definition twoSites : Elastic.elastic (Client := unit) :=
  Elastic.mkElastic tt
    (<["s1" := Elastic.mkBulkIndexer "s1" []]> (<["s2" := Elastic.mkBulkIndexer "s2" []]> ∅))
    false.

Definition closeButS2 (bi : Elastic.BulkIndexer) : option error :=
  if String.eqb (Elastic.biIndex bi) "s2" then Some (LibError "esutil" "flush failed") else None.

(** A cluster that answers every search with the status 404. *)
Definition notFound (c : unit) (index : string) (body : list byte)
  : result Elastic.httpResponse :=
  Ok (Elastic.mkHttpResponse 404 (Ok (bytesOf "no such index"))).

Definition encodeQuery (query : Elastic.elacticQuery) : result (list byte) :=
  Ok (bytesOf (Elastic.qText query)).

Definition decodeNothing (content : list byte) : result Elastic.elacticResponse :=
  Ok (Elastic.mkEsResponse 1 0 []).

(** A data service that finds nothing, with the bytes it is encoded as. *)
Definition findNothing (siteID query sortBy : string) (skip limit : Z) : result unit := Ok tt.

Definition encodeUnit (page : unit) : result (list byte) := Ok (bytesOf "[]").

Definition neverThat (e : error) : bool := false.

End Samples.


(** * Properties *)

(** ** Strings *)

Lemma HasPrefix_app (p s : string) : GoStrings.HasPrefix (p ++ s)%string p = true.
Proof.
  induction p as [|c p IH]; simpl; [reflexivity|].
  rewrite Ascii.eqb_refl. exact IH.
Qed.

Lemma slice_from_app (p s : string) :
  GoStrings.slice_from (String.length p) (p ++ s)%string = s.
Proof. induction p as [|c p IH]; simpl; [reflexivity | exact IH]. Qed.

Lemma TrimPrefix_app (p s : string) : GoStrings.TrimPrefix (p ++ s)%string p = s.
Proof.
  unfold GoStrings.TrimPrefix. rewrite HasPrefix_app. apply slice_from_app.
Qed.

Lemma Split_nonempty (s : string) (sep : ascii) : GoStrings.Split s sep <> [].
Proof.
  induction s as [|c s IH]; simpl; [discriminate|].
  destruct (Ascii.eqb c sep); [discriminate|].
  destruct (GoStrings.Split s sep); [contradiction | discriminate].
Qed.

Lemma Split_without_sep (s : string) (sep : ascii) :
  ~ In sep (list_ascii_of_string s) -> GoStrings.Split s sep = [s].
Proof.
  induction s as [|c s IH]; simpl; intros Hno; [reflexivity|].
  destruct (Ascii.eqb_spec c sep) as [->|Hne].
  - exfalso. apply Hno. now left.
  - rewrite IH; [reflexivity|]. intros Hin. apply Hno. now right.
Qed.

Lemma Split_at_sep (a b : string) (sep : ascii) :
  ~ In sep (list_ascii_of_string a) ->
  GoStrings.Split (a ++ String sep b)%string sep = a :: GoStrings.Split b sep.
Proof.
  induction a as [|c a IH]; simpl; intros Hno.
  - now rewrite Ascii.eqb_refl.
  - destruct (Ascii.eqb_spec c sep) as [->|Hne].
    + exfalso. apply Hno. now left.
    + rewrite IH; [reflexivity|]. intros Hin. apply Hno. now right.
Qed.

(** ** The remote back end: secrets (C4) *)

Section ElasticSecrets.

Import Elastic.

Lemma parseSecret_basic (user pass : string) (cfg : Config) :
  ~ In colon (list_ascii_of_string user) ->
  ~ In colon (list_ascii_of_string pass) ->
  parseSecret ("basic:" ++ user ++ ":" ++ pass)%string cfg
  = (mkConfig (Addresses cfg) user pass (cfgAPIKey cfg), None).
Proof.
  intros Hu Hp. unfold parseSecret.
  rewrite HasPrefix_app, TrimPrefix_app.
  change (user ++ ":" ++ pass)%string with (user ++ String colon pass)%string.
  rewrite (Split_at_sep user pass colon Hu), (Split_without_sep pass colon Hp).
  reflexivity.
Qed.

Lemma parseSecret_basic_fields (secret : string) (cfg : Config) :
  GoStrings.HasPrefix secret "basic:" = true ->
  (snd (parseSecret secret cfg) = None
   <-> length (GoStrings.Split (GoStrings.TrimPrefix secret "basic:") colon) = 2).
Proof.
  intros Hp. unfold parseSecret. rewrite Hp.
  destruct (GoStrings.Split (GoStrings.TrimPrefix secret "basic:") colon)
    as [|u [|p [|x rest]]]; simpl; split; intros H; try reflexivity; discriminate.
Qed.

Lemma parseSecret_token (key : string) (cfg : Config) :
  parseSecret ("token:" ++ key)%string cfg
  = (mkConfig (Addresses cfg) (cfgUsername cfg) (cfgPassword cfg) key, None).
Proof.
  unfold parseSecret.
  replace (GoStrings.HasPrefix ("token:" ++ key)%string "basic:") with false by reflexivity.
  rewrite HasPrefix_app, TrimPrefix_app. reflexivity.
Qed.

Lemma parseSecret_other (secret : string) (cfg : Config) :
  GoStrings.HasPrefix secret "basic:" = false ->
  GoStrings.HasPrefix secret "token:" = false ->
  parseSecret secret cfg
  = (cfg, Some (Errorf "secret should starts with one of prefixes: %v"
                  [ArgStrings ["basic:"; "token:"]])).
Proof. intros Hb Ht. unfold parseSecret. rewrite Hb, Ht. reflexivity. Qed.

Lemma eqb_empty_false (s : string) : s <> EmptyString -> String.eqb s EmptyString = false.
Proof. intros H. apply String.eqb_neq. exact H. Qed.

(** C4, as the specification words it, does not hold: a basic secret is
    accepted with two fields after the prefix, not three; and an empty
    secret is turned down without the prefixes being named. *)
Lemma parseSecret_three_fields_refuted :
  ~ (forall secret cfg,
       GoStrings.HasPrefix secret "basic:" = true ->
       (snd (parseSecret secret cfg) = None
        <-> length (GoStrings.Split (GoStrings.TrimPrefix secret "basic:") colon) = 3))
  /\ snd (parseSecret "basic:admin:pw:x" (mkConfig ["http://es:9200"] EmptyString EmptyString EmptyString)) <> None
  /\ newElasticService (Client := unit) (fun _ => Ok tt)
       (fun siteID _ => Ok (mkBulkIndexer siteID []))
       (mkParams "elastic" EmptyString EmptyString "http://es:9200" EmptyString ["s1"])
     = Err (Errorf "elasticsearch parameters are not set" []).
Proof.
  split; [|split].
  - intros H.
    specialize (H "basic:admin:pw" (mkConfig [] EmptyString EmptyString EmptyString) eq_refl).
    destruct H as [H _]. specialize (H eq_refl). vm_compute in H. discriminate.
  - vm_compute. discriminate.
  - reflexivity.
Qed.

(** C4, amended: a secret [basic:<user>:<pass>] is accepted and sets user
    and password; a basic secret is accepted exactly when two fields
    separated by colons follow the prefix; [token:<apiKey>] is accepted and
    sets the key; any other secret is turned down by [parseSecret] with the
    message that names [basic:] and [token:], and so is the constructor's
    answer when endpoint and secret are not empty; with an accepted secret
    the constructor succeeds when the client library does. *)
Theorem parseSecret_prefixes (cfg : Config) :
  (forall user pass,
      ~ In colon (list_ascii_of_string user) ->
      ~ In colon (list_ascii_of_string pass) ->
      parseSecret ("basic:" ++ user ++ ":" ++ pass)%string cfg
      = (mkConfig (Addresses cfg) user pass (cfgAPIKey cfg), None))
  /\ (forall secret,
        GoStrings.HasPrefix secret "basic:" = true ->
        (snd (parseSecret secret cfg) = None
         <-> length (GoStrings.Split (GoStrings.TrimPrefix secret "basic:") colon) = 2))
  /\ (forall key,
        parseSecret ("token:" ++ key)%string cfg
        = (mkConfig (Addresses cfg) (cfgUsername cfg) (cfgPassword cfg) key, None))
  /\ (forall secret,
        GoStrings.HasPrefix secret "basic:" = false ->
        GoStrings.HasPrefix secret "token:" = false ->
        parseSecret secret cfg
        = (cfg, Some (Errorf "secret should starts with one of prefixes: %v"
                        [ArgStrings ["basic:"; "token:"]])))
  /\ (forall (Client : Type) (NewClient : Config -> result Client)
             (NewBulkIndexer : string -> Client -> result BulkIndexer) params,
        pEndpoint params <> EmptyString -> pSecret params <> EmptyString ->
        GoStrings.HasPrefix (pSecret params) "basic:" = false ->
        GoStrings.HasPrefix (pSecret params) "token:" = false ->
        newElasticService NewClient NewBulkIndexer params
        = Err (Errorf "secret should starts with one of prefixes: %v"
                 [ArgStrings ["basic:"; "token:"]]))
  /\ (forall (Client : Type) (NewClient : Config -> result Client)
             (NewBulkIndexer : string -> Client -> result BulkIndexer) params cfg' c bis,
        pEndpoint params <> EmptyString ->
        parseSecret (pSecret params) (mkConfig [pEndpoint params] EmptyString EmptyString EmptyString) = (cfg', None) ->
        NewClient cfg' = Ok c ->
        makeBulkIndexers NewBulkIndexer c (pSites params) ∅ = Ok bis ->
        newElasticService NewClient NewBulkIndexer params = Ok (mkElastic c bis false)).
Proof.
  split; [|split; [|split; [|split; [|split]]]].
  - intros user pass. apply parseSecret_basic.
  - intros secret. apply parseSecret_basic_fields.
  - intros key. apply parseSecret_token.
  - intros secret. apply parseSecret_other.
  - intros Client NewClient NewBulkIndexer params He Hs Hb Ht.
    unfold newElasticService.
    rewrite (eqb_empty_false _ He), (eqb_empty_false _ Hs). simpl.
    rewrite (parseSecret_other _ _ Hb Ht). reflexivity.
  - intros Client NewClient NewBulkIndexer params cfg' c bis He Hparse Hc Hbis.
    unfold newElasticService.
    assert (Hs : pSecret params <> EmptyString).
    { intros Hempty. rewrite Hempty in Hparse. vm_compute in Hparse. discriminate. }
    rewrite (eqb_empty_false _ He), (eqb_empty_false _ Hs). simpl.
    rewrite Hparse, Hc, Hbis. reflexivity.
Qed.

Lemma parseSecret_prefixes_witness :
  parseSecret "basic:admin:pw" (mkConfig ["http://es:9200"] EmptyString EmptyString EmptyString)
  = (mkConfig ["http://es:9200"] "admin" "pw" EmptyString, None)
  /\ newElasticService (Client := unit) (fun _ => Ok tt)
       (fun siteID _ => Ok (mkBulkIndexer siteID []))
       (mkParams "elastic" EmptyString EmptyString "http://es:9200" "wrong:admin:pw" ["s1"])
     = Err (Errorf "secret should starts with one of prefixes: %v"
              [ArgStrings ["basic:"; "token:"]]).
Proof.
  pose proof (parseSecret_prefixes (mkConfig ["http://es:9200"] EmptyString EmptyString EmptyString)) as H.
  destruct H as (Hbasic & _ & _ & _ & Hctor & _).
  split.
  - apply (Hbasic "admin" "pw"); vm_compute; intuition discriminate.
  - apply Hctor; vm_compute; (reflexivity || discriminate).
Defined.

End ElasticSecrets.

(** ** Sort fields (C9) *)





(** ** Analyzers (C5) *)

Lemma analyzerMapping_known (analyzer : string) :
  is_Some (Bleve.analyzerMapping !! analyzer)
  <-> analyzer = "standard" \/ analyzer = "english" \/ analyzer = "russian".
Proof.
  unfold Bleve.analyzerMapping. rewrite !lookup_insert.
  repeat case_decide; subst; rewrite ?lookup_empty; split; intros Hk;
    try (eexists; reflexivity); try tauto;
    try (destruct Hk as [x Hx]; discriminate);
    try (destruct Hk as [-> | [-> | ->]]; congruence).
Qed.

Lemma analyzerNames_listed :
  Bleve.analyzerNames ≡ₚ ["standard"; "english"; "russian"].
Proof.
  replace Bleve.analyzerNames with ["standard"; "english"; "russian"] by (vm_compute; reflexivity).
  reflexivity.
Qed.

(** C5: with an analyzer outside standard, english, russian [newBleve]
    fails with the error that names the analyzer and lists those three; with
    one of the three it gets past the validation: it fails only if the index
    path is not a directory or the index cannot be made or opened, and makes
    the engine when the library makes the index. *)
Theorem newBleve_analyzer (BIndex BBatch : Type) (lib : Bleve.bleveLib BIndex BBatch)
  (commentDocType : string) (os_Stat : string -> Bleve.statResult)
  (fs : gmap string (list byte)) (indexPath analyzer : string) :
  (analyzer <> "standard" /\ analyzer <> "english" /\ analyzer <> "russian" ->
   exists names,
     Bleve.newBleve commentDocType os_Stat fs indexPath analyzer
     = Err (Errorf "Unknown analyzer: %q. Available analyzers for bleve: %v"
              [ArgString analyzer; ArgStrings names])
     /\ names ≡ₚ ["standard"; "english"; "russian"])
  /\ (analyzer = "standard" \/ analyzer = "english" \/ analyzer = "russian" ->
      (forall e, Bleve.newBleve commentDocType os_Stat fs indexPath analyzer = Err e ->
                 e = Errorf "index path shoule be a directory" []
                 \/ exists cause, e = Wrap cause "cannot create/open index")
      /\ (os_Stat indexPath = Bleve.StatNotExist ->
          forall name idx,
            Bleve.analyzerMapping !! analyzer = Some name ->
            Bleve.bleve_New indexPath (Bleve.createIndexMapping commentDocType name) = Ok idx ->
            exists eng,
              Bleve.newBleve commentDocType os_Stat fs indexPath analyzer = Ok eng
              /\ Buffered.index eng = idx /\ Buffered.docQueue eng = []
              /\ Buffered.flushCount eng = 100%Z)).
Proof.
  split.
  - intros (H1 & H2 & H3).
    exists Bleve.analyzerNames. split; [|exact analyzerNames_listed].
    unfold Bleve.newBleve.
    destruct (Bleve.analyzerMapping !! analyzer) as [name|] eqn:E; [|reflexivity].
    exfalso. assert (Hs : is_Some (Bleve.analyzerMapping !! analyzer)) by (rewrite E; eauto).
    apply analyzerMapping_known in Hs. tauto.
  - intros Hin. apply analyzerMapping_known in Hin. destruct Hin as [name Hname].
    unfold Bleve.newBleve. rewrite Hname. split.
    + intros e. destruct (os_Stat indexPath) as [|errOpen|isDir].
      * destruct (Bleve.bleve_New _ _); intros H; [discriminate|].
        injection H as <-. right. eauto.
      * intros H. injection H as <-. right. eauto.
      * destruct isDir; simpl.
        -- destruct (Bleve.bleve_Open _); intros H; [discriminate|].
           injection H as <-. right. eauto.
        -- intros H. injection H as <-. now left.
    + intros Hstat name' idx Hname' Hnew. rewrite Hstat.
      injection Hname' as <-. rewrite Hnew.
      eexists. split; [reflexivity|]. simpl. auto.
Qed.

Lemma newBleve_analyzer_witness :
  (exists names,
      Bleve.newBleve (lib := Examples.memBleve) "comment" (fun _ => Bleve.StatNotExist) ∅
        "/idx/s1" "klingon"
      = Err (Errorf "Unknown analyzer: %q. Available analyzers for bleve: %v"
               [ArgString "klingon"; ArgStrings names])
      /\ names ≡ₚ ["standard"; "english"; "russian"])
  /\ (exists eng,
        Bleve.newBleve (lib := Examples.memBleve) "comment" (fun _ => Bleve.StatNotExist) ∅
          "/idx/s1" "english" = Ok eng
        /\ Buffered.index eng = Examples.mkMem [] true /\ Buffered.docQueue eng = []
        /\ Buffered.flushCount eng = 100%Z).
Proof.
  split.
  - apply (proj1 (newBleve_analyzer _ _ Examples.memBleve "comment"
                    (fun _ => Bleve.StatNotExist) ∅ "/idx/s1" "klingon")).
    repeat split; discriminate.
  - apply (proj2 (proj2 (newBleve_analyzer _ _ Examples.memBleve "comment"
                           (fun _ => Bleve.StatNotExist) ∅ "/idx/s1" "english")
                    (or_intror (or_introl eq_refl))) eq_refl "en" (Examples.mkMem [] true)).
    + vm_compute. reflexivity.
    + reflexivity.
Defined.

(** ** Conversion of the library's hits (C10) *)

Lemma convertHits_with_urls (hits : list Bleve.DocumentMatch) (docs : list ResultDoc) :
  Forall (fun r => is_Some (Bleve.urlOf r)) hits ->
  exists more,
    Bleve.convertHits hits docs = Returned (docs ++ more) /\ length more = length hits.
Proof.
  intros Hall. revert docs.
  induction Hall as [|r hits [url Hurl] _ IH]; intros docs.
  - exists []. rewrite app_nil_r. split; reflexivity.
  - simpl. rewrite Hurl.
    destruct (IH (docs ++ [mkResultDoc (Bleve.hitID r)
                            match Bleve.hitLocations r !! Bleve.textFieldName with
                            | Some highlight => Bleve.matchesOf highlight
                            | None => []
                            end url])) as (more & Hmore & Hlen).
    eexists (_ :: more). rewrite Hmore, <- app_assoc. simpl.
    split; [reflexivity | now rewrite Hlen].
Qed.

Lemma convertHits_without_url (hits : list Bleve.DocumentMatch) (docs : list ResultDoc) :
  Exists (fun r => Bleve.urlOf r = None) hits ->
  Bleve.convertHits hits docs
  = Panicked (Errorf "cannot find %q in %v" [ArgString Bleve.urlFieldName]).
Proof.
  intros Hex. revert docs.
  induction Hex as [r hits Hnone | r hits _ IH]; intros docs; simpl.
  - now rewrite Hnone.
  - destruct (Bleve.urlOf r); [apply IH | reflexivity].
Qed.

(** C10: when a hit has no string under "url", [convertBleveSerp] panics,
    and so does [Search] when the library returns such a hit (it does not
    return an error); when every hit has one, the conversion returns a page
    with one document per hit and [Search] returns that page. *)
Theorem convertBleveSerp_needs_url (serp : Bleve.SearchResult) :
  (Exists (fun r => Bleve.urlOf r = None) (Bleve.srHits serp) ->
   Bleve.convertBleveSerp serp
   = Panicked (Errorf "cannot find %q in %v" [ArgString Bleve.urlFieldName])
   /\ forall (BIndex BBatch : Type) (lib : Bleve.bleveLib BIndex BBatch) (idx : BIndex) req,
       Bleve.bleve_Search idx (fst (Bleve.searchRequest req)) = Ok serp ->
       snd (Bleve.Search idx req)
       = Panicked (Errorf "cannot find %q in %v" [ArgString Bleve.urlFieldName]))
  /\ (Forall (fun r => is_Some (Bleve.urlOf r)) (Bleve.srHits serp) ->
      exists page,
        Bleve.convertBleveSerp serp = Returned page
        /\ Total page = Bleve.srTotal serp
        /\ length (Documents page) = length (Bleve.srHits serp)
        /\ forall (BIndex BBatch : Type) (lib : Bleve.bleveLib BIndex BBatch) (idx : BIndex) req,
            Bleve.bleve_Search idx (fst (Bleve.searchRequest req)) = Ok serp ->
            snd (Bleve.Search idx req) = Returned (Ok page)).
Proof.
  split.
  - intros Hex.
    assert (Hconv : Bleve.convertBleveSerp serp
                    = Panicked (Errorf "cannot find %q in %v" [ArgString Bleve.urlFieldName])).
    { unfold Bleve.convertBleveSerp. now rewrite (convertHits_without_url _ [] Hex). }
    split; [exact Hconv|].
    intros BIndex BBatch lib idx req Hsearch. unfold Bleve.Search.
    destruct (Bleve.searchRequest req) as [bReq logged]. simpl in Hsearch.
    rewrite Hsearch, Hconv. reflexivity.
  - intros Hall.
    destruct (convertHits_with_urls _ [] Hall) as (more & Hmore & Hlen).
    exists (mkResultPage (Bleve.srTotal serp) more).
    assert (Hconv : Bleve.convertBleveSerp serp
                    = Returned (mkResultPage (Bleve.srTotal serp) more)).
    { unfold Bleve.convertBleveSerp. now rewrite Hmore. }
    split; [exact Hconv|]. split; [reflexivity|]. split; [exact Hlen|].
    intros BIndex BBatch lib idx req Hsearch. unfold Bleve.Search.
    destruct (Bleve.searchRequest req) as [bReq logged]. simpl in Hsearch.
    rewrite Hsearch, Hconv. reflexivity.
Qed.

Lemma convertBleveSerp_needs_url_witness :
  Bleve.convertBleveSerp
    (Bleve.mkSearchResult 2
       [Bleve.mkHit "c1" (<["url" := Bleve.FString "https://example.com/post"]> ∅) ∅;
        Bleve.mkHit "c2" (<["url" := Bleve.FNumber 7]> ∅) ∅])
  = Panicked (Errorf "cannot find %q in %v" [ArgString Bleve.urlFieldName])
  /\ exists page,
      Bleve.convertBleveSerp
        (Bleve.mkSearchResult 1
           [Bleve.mkHit "c1" (<["url" := Bleve.FString "https://example.com/post"]> ∅) ∅])
      = Returned page.
Proof.
  split.
  - apply (proj1 (convertBleveSerp_needs_url _)).
    apply Exists_cons_tl, Exists_cons_hd. vm_compute. reflexivity.
  - destruct (proj2 (convertBleveSerp_needs_url
                       (Bleve.mkSearchResult 1
                          [Bleve.mkHit "c1"
                             (<["url" := Bleve.FString "https://example.com/post"]> ∅) ∅])))
      as (page & Hpage & _).
    + constructor; [vm_compute; eauto | constructor].
    + exists page. exact Hpage.
Defined.

(** ** The remote back end: unknown sites (C8) *)

(** C8, amended: for a site without a bulk indexer, [Delete] returns the
    error "index for site %s does not found"; [IndexDocument] returns that
    error wrapped with "failed to add document to batch" when the document
    can be encoded, and the error of the encoder, wrapped, when it cannot;
    [Flush] returns nil.  None of them changes the service, so nothing is
    added to any bulk indexer. *)
Theorem unknown_site_rejected (Client : Type)
  (DocFromComment : Comment -> DocumentComment)
  (json_Marshal : DocumentComment -> result (list byte))
  (e : Elastic.elastic (Client := Client)) (siteID : string) :
  Elastic.bulkIndexers e !! siteID = None ->
  (forall commentID,
      Elastic.Delete siteID commentID e = (e, Some (Sites.siteNotFound siteID)))
  /\ (forall commentID comment,
        locSiteID (cLocator comment) = siteID ->
        (forall data,
            json_Marshal (DocFromComment comment) = Ok data ->
            Elastic.IndexDocument DocFromComment json_Marshal commentID comment e
            = (e, Some (Wrap (Sites.siteNotFound siteID) "failed to add document to batch")))
        /\ (forall err,
              json_Marshal (DocFromComment comment) = Err err ->
              Elastic.IndexDocument DocFromComment json_Marshal commentID comment e
              = (e, Some (Wrapf err "cannot encode document %s: %s"
                            [ArgString (ID (DocFromComment comment)); ArgError err]))))
  /\ Elastic.Flush siteID e = (e, None).
Proof.
  intros Hnone. split; [|split].
  - intros commentID. unfold Elastic.Delete. now rewrite Hnone.
  - intros commentID comment Hsite. unfold Elastic.IndexDocument.
    rewrite Hsite, Hnone. split.
    + intros data ->. reflexivity.
    + intros err ->. reflexivity.
  - reflexivity.
Qed.

Lemma unknown_site_rejected_witness :
  Elastic.Delete "s3" "c3" Examples.oneSite
  = (Examples.oneSite, Some (Errorf "index for site %s does not found" [ArgString "s3"]))
  /\ Elastic.IndexDocument Examples.docFromComment (@Buffered.json_Marshal Examples.plainCodec)
       "c3" Examples.comment3 Examples.oneSite
     = (Examples.oneSite,
        Some (Wrap (Errorf "index for site %s does not found" [ArgString "s3"])
                "failed to add document to batch")).
Proof.
  assert (Hnone : Elastic.bulkIndexers Examples.oneSite !! "s3" = None)
    by (vm_compute; reflexivity).
  destruct (unknown_site_rejected unit Examples.docFromComment
              (@Buffered.json_Marshal Examples.plainCodec)
              Examples.oneSite "s3" Hnone) as (Hdel & Hidx & _).
  split; [apply Hdel|].
  apply (proj1 (Hidx "c3" Examples.comment3 eq_refl) _ eq_refl).
Defined.

(** C8, as the specification words it, does not hold of every operation:
    [Flush] is a stub that returns nil for a site without an index, as for
    any other. *)
Lemma unknown_site_Flush_returns_nil :
  ~ Sites.unknownSiteRefused (Client := unit) Examples.docFromComment
      (@Buffered.json_Marshal Examples.plainCodec)
  /\ Elastic.bulkIndexers Examples.oneSite !! "s3" = None
  /\ Elastic.Flush "s3" Examples.oneSite = (Examples.oneSite, None).
Proof.
  assert (Hnone : Elastic.bulkIndexers Examples.oneSite !! "s3" = None)
    by (vm_compute; reflexivity).
  split; [|split; [exact Hnone | reflexivity]].
  intros Hclaim. destruct (Hclaim Examples.oneSite "s3" Hnone) as (_ & _ & err & Hflush & _).
  discriminate.
Qed.

(** ** The buffered engine: accepting documents (C7) *)

Section Accepting.

Import Buffered.

Context {Index Batch : Type} {engine : searchEngine Index Batch} {codec : jsonCodec}.
Variable aheadLogFname : string.
Variable path_Join : string -> string -> string.
Implicit Types s : bufferedEngine (Index := Index).

Lemma IndexDocument_course (doc : DocumentComment) s :
  IndexDocument doc s
  = if chClosed (queueNotifier s)
    then Panics (LibError "runtime" "send on closed channel")
    else Sends (setNotifier (mkChan false (chSenders (queueNotifier s) ++ [mkSender false None]))
                  (setQueue (docQueue s ++ [QDoc doc]) s))
           (fun s2 => Returns (s2, None)).
Proof. reflexivity. Qed.

Lemma Flush_course s :
  Flush s
  = if chClosed (queueNotifier s)
    then Panics (LibError "runtime" "send on closed channel")
    else Sends (setNotifier
                  (mkChan false
                     (chSenders (queueNotifier s) ++ [mkSender true (Some (madeFlushers s))]))
                  (setQueue (docQueue s ++ [QFlusher (madeFlushers s)])
                     (setMadeFlushers (S (madeFlushers s)) s)))
           (fun s2 => Receives (madeFlushers s) s2 (fun err s3 => Returns (s3, err))).
Proof. reflexivity. Qed.

Lemma indexBatch_notifier s : queueNotifier (indexBatch s) = queueNotifier s.
Proof.
  unfold indexBatch. destruct (docQueue s) as [|entry q]; [reflexivity|].
  destruct (fillBatch _ _) as [[batch evs] deferred].
  destruct (se_Batch _ _) as [index' err].
  destruct (runDeferred _ _ _) as [notified waits]. reflexivity.
Qed.

Lemma writeAheadLog_notifier (io : ioFaults) s :
  queueNotifier (writeAheadLog aheadLogFname path_Join io s) = queueNotifier s.
Proof.
  unfold writeAheadLog.
  destruct (createFails io); [now destruct (files s !! _)|].
  destruct (writeEntries _ _ _ _) as [[written err] deferred].
  destruct (runDeferred _ _ _) as [notified waits].
  now destruct (files s !! _).
Qed.








End Accepting.



(** ** The buffered engine: the worker (C6) *)

Section Worker.

Import Buffered.

Context {Index Batch : Type} {engine : searchEngine Index Batch}.



End Worker.


(** ** The buffered engine: the ahead log (C2, C3) *)

Section AheadLog.

Import Buffered.

Context {Index Batch : Type} {engine : searchEngine Index Batch} {codec : jsonCodec}.
Variable aheadLogFname : string.
Variable path_Join : string -> string -> string.

Lemma json_Unmarshal_nil (data : list byte) :
  exists e, json_Unmarshal data None = Err e.
Proof. unfold json_Unmarshal. destruct (negb (json_Valid data)); eauto. Qed.

Lemma ReadBytes_finds_chunk (data rest : list byte) :
  exists chunk chunks, fst (ReadBytes x00 (data ++ x00 :: rest)) = chunk :: chunks.
Proof.
  induction data as [|b data IH]; simpl.
  - destruct (ReadBytes x00 rest) as [chunks tail]. simpl. eauto.
  - destruct (ReadBytes x00 (data ++ x00 :: rest)) as [chunks tail].
    destruct IH as (chunk & chunks' & Hc). simpl in Hc. subst chunks.
    destruct (Byte.eqb b x00); simpl; eauto.
Qed.

(** The chunks are cut at the delimiter: a record without a zero byte,
    followed by the zero byte, is read back as that record. *)
Lemma ReadBytes_one_record (data : list byte) :
  ~ In x00 data ->
  ReadBytes x00 (data ++ [x00]) = ([data ++ [x00]], []) /\ removelast (data ++ [x00]) = data.
Proof.
  intros Hno. split; [|apply removelast_last].
  induction data as [|b data IH]; simpl; [reflexivity|].
  rewrite IH by (intros Hin; apply Hno; now right).
  destruct (Byte.eqb b x00) eqn:E; [|reflexivity].
  exfalso. apply Hno. left. symmetry. now apply Byte.byte_dec_bl.
Qed.

Lemma readRecords_first_chunk (ctxDone : nat -> bool) (io : ioFaults) (chunk : list byte)
  (chunks : list (list byte)) (k : nat) (s : bufferedEngine (Index := Index)) :
  ctxDone k = false -> readFails io k = None ->
  exists e, readRecords ctxDone io (chunk :: chunks) k s = Returns (s, Some e).
Proof.
  intros Hctx Hread. cbn [readRecords]. rewrite Hctx, Hread.
  destruct (json_Unmarshal_nil (removelast chunk)) as [e He]. rewrite He. eauto.
Qed.

(** What [Init] does with an ahead log that holds at least one record:
    decoding the first record fails, because the decoder is given a nil
    pointer; [Init] returns that error; the queue and the file stay as they
    were. *)
Lemma Init_with_record (ctxDone : nat -> bool) (io : ioFaults)
  (s : bufferedEngine (Index := Index)) (data rest : list byte) :
  files s !! getAheadLogPath aheadLogFname path_Join s = Some (data ++ x00 :: rest) ->
  openFails io = None -> readFails io 0 = None -> ctxDone 0 = false ->
  exists err s',
    Init aheadLogFname path_Join ctxDone io s = Returns (s', (true, Some err))
    /\ docQueue s' = docQueue s /\ files s' = files s.
Proof.
  intros Hfile Hopen Hread Hctx. unfold Init. rewrite Hfile, Hopen. unfold readAheadLog.
  destruct (ReadBytes_finds_chunk data rest) as (chunk & chunks & ->).
  destruct (readRecords_first_chunk ctxDone io chunk chunks 0 s Hctx Hread) as [e ->].
  exists e. destruct (closeFails io); eexists; (split; [reflexivity|]); simpl; auto.
Qed.

(** C2, at the failing input: with an ahead log that holds a record, [Init]
    returns an error, indexes nothing and leaves the file in place, where the
    claim has it index the records and remove the file. *)
Theorem Init_replay_fails (ctxDone : nat -> bool) (io : ioFaults)
  (s : bufferedEngine (Index := Index)) (data rest : list byte) :
  files s !! getAheadLogPath aheadLogFname path_Join s = Some (data ++ x00 :: rest) ->
  openFails io = None -> readFails io 0 = None -> ctxDone 0 = false ->
  exists err s',
    Init aheadLogFname path_Join ctxDone io s = Returns (s', (true, Some err))
    /\ docQueue s' = docQueue s
    /\ files s' !! getAheadLogPath aheadLogFname path_Join s = Some (data ++ x00 :: rest).
Proof.
  intros Hfile Hopen Hread Hctx.
  destruct (Init_with_record ctxDone io s data rest Hfile Hopen Hread Hctx)
    as (err & s' & HInit & Hq & Hf).
  exists err, s'. rewrite Hf. auto.
Qed.

Lemma writeAheadLog_one_document (io : ioFaults) (s : bufferedEngine (Index := Index))
  (d : DocumentComment) (data : list byte) :
  docQueue s = [QDoc d] -> json_Marshal d = Ok data ->
  createFails io = None -> writeFails io 0 = None ->
  files (writeAheadLog aheadLogFname path_Join io s)
    !! getAheadLogPath aheadLogFname path_Join s = Some (data ++ [x00])
  /\ docQueue (writeAheadLog aheadLogFname path_Join io s) = []
  /\ indexPath (writeAheadLog aheadLogFname path_Join io s) = indexPath s.
Proof.
  intros Hq Hm Hc Hw. unfold writeAheadLog. rewrite Hc.
  destruct (files s !! getAheadLogPath aheadLogFname path_Join s) as [old|]; simpl;
    rewrite Hq; simpl; rewrite Hm, Hw; simpl;
    rewrite lookup_insert_eq, app_nil_r; auto.
Qed.

(** C3, at the failing input: the ahead log written for a queue that holds
    the document [d] is the encoding of [d] followed by a zero byte; reading
    it back returns an error and puts nothing in the queue, where the claim
    has it yield [d]. *)
Theorem ahead_log_round_trip_fails (io : ioFaults) (s : bufferedEngine (Index := Index))
  (d : DocumentComment) (data : list byte) :
  docQueue s = [QDoc d] -> json_Marshal d = Ok data ->
  createFails io = None -> writeFails io 0 = None ->
  files (writeAheadLog aheadLogFname path_Join io s)
    !! getAheadLogPath aheadLogFname path_Join s = Some (data ++ [x00])
  /\ forall ctxDone io',
      openFails io' = None -> readFails io' 0 = None -> ctxDone 0 = false ->
      exists err s',
        Init aheadLogFname path_Join ctxDone io' (writeAheadLog aheadLogFname path_Join io s)
        = Returns (s', (true, Some err))
        /\ docQueue s' = [].
Proof.
  intros Hq Hm Hc Hw.
  destruct (writeAheadLog_one_document io s d data Hq Hm Hc Hw) as (Hfile & Hempty & Hpath).
  split; [exact Hfile|].
  intros ctxDone io' Hopen Hread Hctx.
  assert (Hfile' : files (writeAheadLog aheadLogFname path_Join io s)
                     !! getAheadLogPath aheadLogFname path_Join
                          (writeAheadLog aheadLogFname path_Join io s)
                   = Some (data ++ x00 :: [])).
  { unfold getAheadLogPath in *. rewrite Hpath. exact Hfile. }
  destruct (Init_with_record ctxDone io' _ data [] Hfile' Hopen Hread Hctx)
    as (err & s' & HInit & Hq' & _).
  exists err, s'. split; [exact HInit|]. now rewrite Hq', Hempty.
Qed.

(** The loop never gets to its call of [IndexDocument]: it returns at the
    first record at the latest, and without an error only when there is no
    record. *)
Lemma readRecords_returns (ctxDone : nat -> bool) (io : ioFaults) (chunks : list (list byte))
  (k : nat) (s : bufferedEngine (Index := Index)) :
  exists err,
    readRecords ctxDone io chunks k s = Returns (s, err) /\ (err = None -> chunks = []).
Proof.
  destruct chunks as [|chunk chunks]; cbn [readRecords];
    destruct (ctxDone k); try (eexists; split; [reflexivity | discriminate]);
    destruct (readFails io k); try (eexists; split; [reflexivity | discriminate]).
  - eexists. split; reflexivity.
  - destruct (json_Unmarshal_nil (removelast chunk)) as [e ->].
    eexists. split; [reflexivity | discriminate].
Qed.

(** What [Init] can return when the file is there and opens: with an error,
    queue and files are as before; without one, the file held no record, the
    queue is as before, and the file is gone unless removing it failed. *)
Lemma Init_outcomes (ctxDone : nat -> bool) (io : ioFaults)
  (s s' : bufferedEngine (Index := Index)) (content : list byte) (err : option error) :
  files s !! getAheadLogPath aheadLogFname path_Join s = Some content ->
  openFails io = None ->
  Init aheadLogFname path_Join ctxDone io s = Returns (s', (true, err)) ->
  docQueue s' = docQueue s
  /\ match err with
     | Some _ => files s' = files s
     | None =>
         fst (ReadBytes x00 content) = []
         /\ (removeFails io = None ->
             files s' !! getAheadLogPath aheadLogFname path_Join s = None)
     end.
Proof.
  intros Hfile Hopen. unfold Init. rewrite Hfile, Hopen. unfold readAheadLog.
  destruct (readRecords_returns ctxDone io (fst (ReadBytes x00 content)) 0 s)
    as (e & -> & Hnil).
  cbn [bind]. destruct e as [e|].
  - destruct (closeFails io); intros H; injection H as <- <-; simpl; auto.
  - specialize (Hnil eq_refl).
    destruct (removeFails io), (closeFails io); intros H; injection H as <- <-; simpl;
      (split; [reflexivity|]); (split; [exact Hnil|]);
      intros Hrm; try discriminate; apply lookup_delete_eq.
Qed.

End AheadLog.

Lemma Init_replay_fails_witness :
  exists err s',
    Buffered.Init (codec := Examples.plainCodec)
      "wal" Examples.joinPath (fun _ => false) Buffered.noFaults
      (Examples.memEngineAt true (<["/idx/s1/wal" := Examples.bytesOf "{c1,u}" ++ [x00]]> ∅))
    = Buffered.Returns (s', (true, Some err))
    /\ Buffered.docQueue s' = []
    /\ Buffered.files s' !! "/idx/s1/wal" = Some (Examples.bytesOf "{c1,u}" ++ [x00]).
Proof.
  apply (Init_replay_fails (codec := Examples.plainCodec)
           "wal" Examples.joinPath (fun _ => false) Buffered.noFaults
           (Examples.memEngineAt true (<["/idx/s1/wal" := Examples.bytesOf "{c1,u}" ++ [x00]]> ∅))
           (Examples.bytesOf "{c1,u}") []); reflexivity.
Defined.

Lemma ahead_log_round_trip_fails_witness :
  exists err s',
    Buffered.Init (codec := Examples.plainCodec)
      "wal" Examples.joinPath (fun _ => false) Buffered.noFaults
      (Buffered.writeAheadLog (codec := Examples.plainCodec) "wal" Examples.joinPath
         Buffered.noFaults
         (Buffered.setQueue [Buffered.QDoc Examples.doc1] (Examples.memEngineAt true ∅)))
    = Buffered.Returns (s', (true, Some err))
    /\ Buffered.docQueue s' = [].
Proof.
  apply (proj2 (ahead_log_round_trip_fails (codec := Examples.plainCodec) "wal" Examples.joinPath Buffered.noFaults
                  (Buffered.setQueue [Buffered.QDoc Examples.doc1] (Examples.memEngineAt true ∅))
                  Examples.doc1 _ eq_refl eq_refl eq_refl eq_refl)); reflexivity.
Defined.

(** ** The buffered engine: the flush barrier (C1) *)


Section TraceFacts.

Import Buffered Barrier.






End TraceFacts.

Section Moves.

Import Buffered Barrier.

Context {Index : Type}.
Implicit Types s : bufferedEngine (Index := Index).






End Moves.

Section DeferredSends.

Import Buffered Ledger.

Lemma ownerAtSend_nobody (f : nat) (c : chanBool) : chSenders c = [] -> ownerAtSend f c = false.
Proof. unfold ownerAtSend. now intros ->. Qed.

Lemma sendDeferred_reached (c : chanBool) (fs : list nat) (err : option error) :
  fst (sendDeferred c fs err) = map (fun f => EvNotify f err) (reached c fs).
Proof.
  induction fs as [|f fs IH]; cbn [sendDeferred reached]; [reflexivity|].
  destruct (ownerAtSend f c); [reflexivity|].
  destruct (sendDeferred c fs err) as [evs waits]. cbn [fst map] in *. now rewrite IH.
Qed.

Lemma sendDeferred_waits (c : chanBool) (fs : list nat) (err : option error) :
  snd (sendDeferred c fs err) = None <-> reached c fs = fs.
Proof.
  induction fs as [|f fs IH]; cbn [sendDeferred reached]; [tauto|].
  destruct (ownerAtSend f c); [split; discriminate|].
  destruct (sendDeferred c fs err) as [evs waits]. cbn [snd] in *. rewrite IH.
  split; [now intros -> | intros H; now injection H].
Qed.

Lemma reached_all (c : chanBool) (fs : list nat) :
  (forall f, In f fs -> ownerAtSend f c = false) -> reached c fs = fs.
Proof.
  induction fs as [|f fs IH]; intros Hfree; cbn [reached]; [reflexivity|].
  rewrite (Hfree f (or_introl eq_refl)), IH; [reflexivity|].
  intros g Hin. apply Hfree. now right.
Qed.




Lemma runDeferred_nobody (c : chanBool) (deferred : list nat) (err : option error) :
  (forall f, In f deferred -> ownerAtSend f c = false) ->
  runDeferred c deferred err = (map (fun f => EvNotify f err) (rev deferred), None).
Proof.
  intros Hfree.
  assert (Hall : reached c (rev deferred) = rev deferred).
  { apply reached_all. intros f Hin. apply Hfree. now apply in_rev. }
  rewrite (surjective_pairing (runDeferred c deferred err)). unfold runDeferred. f_equal.
  - now rewrite sendDeferred_reached, Hall.
  - now apply sendDeferred_waits.
Qed.

End DeferredSends.

Section Steps.

Import Buffered Barrier.

Context {Index Batch : Type} {engine : searchEngine Index Batch} {codec : jsonCodec}.
Variable aheadLogFname : string.
Variable path_Join : string -> string -> string.
Implicit Types s : bufferedEngine (Index := Index).


















End Steps.

(** An engine as [newBleve] makes it knows its flushers: it has none. *)
Lemma newBleve_flushersKnown (BIndex BBatch : Type) (lib : Bleve.bleveLib BIndex BBatch)
  (commentDocType : string) (os_Stat : string -> Bleve.statResult)
  (fs : gmap string (list byte)) (indexPath analyzer : string)
  (eng : Buffered.bufferedEngine (Index := BIndex)) :
  Bleve.newBleve commentDocType os_Stat fs indexPath analyzer = Ok eng ->
  Barrier.flushersKnown eng.
Proof.
  unfold Bleve.newBleve.
  destruct (Bleve.analyzerMapping !! analyzer) as [name|]; [|discriminate].
  destruct (os_Stat indexPath) as [|errOpen|isDir].
  - destruct (Bleve.bleve_New _ _); [|discriminate].
    intros H. injection H as <-.
    split; [intros g [] | intros g e Hin; simpl in Hin; intuition discriminate].
  - discriminate.
  - destruct isDir; simpl; [|discriminate].
    destruct (Bleve.bleve_Open _); [|discriminate].
    intros H. injection H as <-.
    split; [intros g [] | intros g e Hin; simpl in Hin; intuition discriminate].
Qed.

Lemma memEngineAt_flushersKnown (writable : bool) (fs : gmap string (list byte)) :
  Barrier.flushersKnown (Examples.memEngineAt writable fs).
Proof. split; simpl; [intros g [] | intros g e []]. Qed.




(** * Further properties *)

(** ** The buffered engine: accounts of queue and trace *)

Section LedgerFacts.

Import Buffered Ledger.

Lemma indexedDocs_app (a b : list event) :
  indexedDocs (a ++ b) = indexedDocs a ++ indexedDocs b.
Proof.
  induction a as [|ev a IH]; [reflexivity|].
  destruct ev; simpl; rewrite IH; reflexivity.
Qed.

Lemma answers_app (a b : list event) : answers (a ++ b) = answers a ++ answers b.
Proof.
  induction a as [|ev a IH]; [reflexivity|].
  destruct ev; simpl; rewrite IH; reflexivity.
Qed.

Lemma queuedDocs_app (a b : list queueEntry) :
  queuedDocs (a ++ b) = queuedDocs a ++ queuedDocs b.
Proof.
  induction a as [|entry a IH]; [reflexivity|].
  destruct entry; simpl; rewrite IH; reflexivity.
Qed.

Lemma queuedFlushers_app (a b : list queueEntry) :
  queuedFlushers (a ++ b) = queuedFlushers a ++ queuedFlushers b.
Proof.
  induction a as [|entry a IH]; [reflexivity|].
  destruct entry; simpl; rewrite IH; reflexivity.
Qed.

Lemma queuedFlushers_In (q : list queueEntry) (g : nat) :
  In g (queuedFlushers q) <-> In (QFlusher g) q.
Proof.
  induction q as [|entry q IH]; simpl; [tauto|].
  destruct entry as [d|f]; simpl; rewrite IH; split.
  - intros H. now right.
  - intros [H|H]; [discriminate | exact H].
  - intros [->|H]; [now left | now right].
  - intros [H|H]; [injection H as ->; now left | now right].
Qed.

Lemma queuedDocs_In (q : list queueEntry) (d : DocumentComment) :
  In d (queuedDocs q) <-> In (QDoc d) q.
Proof.
  induction q as [|entry q IH]; simpl; [tauto|].
  destruct entry as [d'|f]; simpl; rewrite IH; split.
  - intros [->|H]; [now left | now right].
  - intros [H|H]; [injection H as ->; now left | now right].
  - intros H. now right.
  - intros [H|H]; [discriminate | exact H].
Qed.

Lemma runDeferred_ledger (c : chanBool) (deferred : list nat) (err : option error) :
  indexedDocs (fst (runDeferred c deferred err)) = []
  /\ answers (fst (runDeferred c deferred err))
     = map (fun f => (f, err)) (reached c (rev deferred)).
Proof.
  unfold runDeferred. rewrite sendDeferred_reached.
  induction (reached c (rev deferred)) as [|f l [IH1 IH2]]; simpl; [auto|].
  rewrite IH1, IH2. auto.
Qed.

Lemma reached_sublist (c : chanBool) (fs : list nat) : reached c fs `sublist_of` fs.
Proof.
  induction fs as [|f fs IH]; cbn [reached]; [constructor|].
  destruct (ownerAtSend f c); [apply sublist_nil_l | now constructor].
Qed.

Lemma log_ledger (logged : list event) :
  (forall ev, In ev logged -> exists line, ev = EvLog line \/ ev = EvTimerReset) ->
  indexedDocs logged = [] /\ answers logged = [].
Proof.
  induction logged as [|ev l IH]; intros Hq; [auto|].
  destruct (Hq ev (or_introl eq_refl)) as [line [-> | ->]]; simpl;
    apply IH; intros ev' Hin; apply Hq; now right.
Qed.

End LedgerFacts.

Section EngineLedger.

Import Buffered Ledger.

Context {Index Batch : Type} {engine : searchEngine Index Batch} {codec : jsonCodec}.
Variable aheadLogFname : string.
Variable path_Join : string -> string -> string.
Implicit Types s : bufferedEngine (Index := Index).

Lemma fillBatch_ledger (q : list queueEntry) :
  forall batch batch' evs deferred,
    fillBatch q batch = (batch', evs, deferred) ->
    indexedDocs evs = queuedDocs q /\ answers evs = [] /\ deferred = queuedFlushers q.
Proof.
  induction q as [|entry q IH]; intros batch batch' evs deferred Hfill; simpl in Hfill.
  - injection Hfill as <- <- <-. auto.
  - destruct entry as [val|f].
    + destruct (se_Index batch (ID val) val) as [batch1 err].
      destruct (fillBatch q batch1) as [[batch2 evs'] deferred'] eqn:Hq.
      injection Hfill as <- <- <-.
      destruct (IH _ _ _ _ Hq) as (Hdocs & Hans & Hdef).
      simpl. rewrite indexedDocs_app, answers_app, Hdocs, Hans, Hdef.
      destruct err; simpl; auto.
    + destruct (fillBatch q batch) as [[batch2 evs'] deferred'] eqn:Hq.
      injection Hfill as <- <- <-.
      destruct (IH _ _ _ _ Hq) as (Hdocs & Hans & Hdef).
      simpl. rewrite Hdef. auto.
Qed.

(** What [indexBatch] does to the accounts: the queued documents move to
    the indexed ones in their order, the queued flushers are answered nil in
    the reverse of theirs, up to the first whose owner waits at its send, and
    at least one batch is committed unless the queue was empty. *)
Lemma indexBatch_ledger s :
  docQueue (indexBatch s) = []
  /\ indexedDocs (trace (indexBatch s)) = indexedDocs (trace s) ++ queuedDocs (docQueue s)
  /\ answers (trace (indexBatch s))
     = answers (trace s)
       ++ map (fun f => (f, None))
            (reached (queueNotifier s) (rev (queuedFlushers (docQueue s))))
  /\ madeFlushers (indexBatch s) = madeFlushers s
  /\ workerExited (indexBatch s) = workerExited s
  /\ files (indexBatch s) = files s
  /\ queueNotifier (indexBatch s) = queueNotifier s
  /\ indexPath (indexBatch s) = indexPath s.
Proof.
  unfold indexBatch. destruct (docQueue s) as [|entry q] eqn:Hq.
  - rewrite Hq. simpl. rewrite !app_nil_r. auto 10.
  - destruct (fillBatch (entry :: q) (se_NewBatch (index s))) as [[batch evs] deferred] eqn:Hfill.
    destruct (se_Batch (index s) batch) as [index' err].
    destruct (fillBatch_ledger _ _ _ _ _ Hfill) as (Hdocs & Hans & ->).
    destruct (runDeferred_ledger (queueNotifier s) (queuedFlushers (entry :: q)) None)
      as [Hd1 Hd2].
    destruct (runDeferred (queueNotifier s) (queuedFlushers (entry :: q)) None)
      as [notified waits].
    cbn [fst] in Hd1, Hd2.
    cbn [trace docQueue madeFlushers workerExited files queueNotifier indexPath
         emit setIndex setQueue setWaits].
    rewrite !indexedDocs_app, !answers_app. cbn [indexedDocs answers].
    rewrite !indexedDocs_app, !answers_app, Hdocs, Hans, Hd1, Hd2.
    destruct err; cbn [indexedDocs answers]; rewrite ?app_nil_r; auto 10.
Qed.

(** [indexBatch] returns when no owner of a queued flusher waits at its
    send. *)
Lemma indexBatch_returns s :
  workerWaits s = None ->
  (forall f, In f (queuedFlushers (docQueue s)) -> ownerAtSend f (queueNotifier s) = false) ->
  workerWaits (indexBatch s) = None.
Proof.
  intros Hws Hfree. unfold indexBatch. destruct (docQueue s) as [|entry q] eqn:Hq; [exact Hws|].
  destruct (fillBatch (entry :: q) (se_NewBatch (index s))) as [[batch evs] deferred] eqn:Hfill.
  destruct (se_Batch (index s) batch) as [index' err].
  destruct (fillBatch_ledger _ _ _ _ _ Hfill) as (_ & _ & ->).
  now rewrite (runDeferred_nobody _ _ _ Hfree).
Qed.

Lemma writeEntries_flushers (io : ioFaults) (q : list queueEntry) :
  forall err n written err' deferred,
    writeEntries io q err n = (written, err', deferred) -> deferred = queuedFlushers q.
Proof.
  induction q as [|entry q IH]; intros err n written err' deferred Hw; simpl in Hw.
  - now injection Hw as <- <- <-.
  - destruct entry as [val|f]; simpl.
    + destruct err as [e|]; [eapply IH; eauto|].
      destruct (json_Marshal val) as [data|e]; [|eapply IH; eauto].
      destruct (writeFails io n) as [[e count]|].
      * destruct (writeEntries io q (Some e) (S n)) as [[w2 err2] def2] eqn:Hq.
        injection Hw as <- <- <-. eapply IH; eauto.
      * destruct (writeEntries io q None (S n)) as [[w2 err2] def2] eqn:Hq.
        injection Hw as <- <- <-. eapply IH; eauto.
    + destruct (writeEntries io q err n) as [[w2 err2] def2] eqn:Hq.
      injection Hw as <- <- <-. f_equal. eapply IH; eauto.
Qed.




Lemma writeEntries_complete (io : ioFaults) (q : list queueEntry) :
  (forall n, writeFails io n = None) ->
  (forall d, In d (queuedDocs q) -> exists data, json_Marshal d = Ok data) ->
  forall n, writeEntries io q None n = (logOf (queuedDocs q), None, queuedFlushers q).
Proof.
  intros Hw. induction q as [|entry q IH]; intros Hm n; simpl; [reflexivity|].
  destruct entry as [val|f]; simpl.
  - destruct (Hm val (or_introl eq_refl)) as [data Hdata].
    rewrite Hdata, Hw, IH by (intros d Hin; apply Hm; now right).
    unfold logRecord at 1. rewrite Hdata. reflexivity.
  - rewrite IH by exact Hm. reflexivity.
Qed.

(** What [writeAheadLog] does when the file can be made: the queue is
    emptied, the file holds what [writeEntries] wrote, the queued flushers
    are answered with the closing error, in the reverse of their order and
    up to the first whose owner waits at its send, and nothing is indexed. *)
Lemma writeAheadLog_ledger (io : ioFaults) s :
  createFails io = None ->
  exists written err,
    writeEntries io (docQueue s) None 0 = (written, err, queuedFlushers (docQueue s))
    /\ docQueue (writeAheadLog aheadLogFname path_Join io s) = []
    /\ files (writeAheadLog aheadLogFname path_Join io s)
       = <[getAheadLogPath aheadLogFname path_Join s := written]> (files s)
    /\ indexedDocs (trace (writeAheadLog aheadLogFname path_Join io s)) = indexedDocs (trace s)
    /\ answers (trace (writeAheadLog aheadLogFname path_Join io s))
       = answers (trace s)
         ++ map (fun f => (f, Some (Errorf "indexer closing" [])))
              (reached (queueNotifier s) (rev (queuedFlushers (docQueue s))))
    /\ madeFlushers (writeAheadLog aheadLogFname path_Join io s) = madeFlushers s.
Proof.
  intros Hc. unfold writeAheadLog. rewrite Hc.
  set (s1 := match files s !! getAheadLogPath aheadLogFname path_Join s with
             | Some _ => emit [EvLog "[ERROR] file %q already exists and would be rewritten"] s
             | None => s
             end).
  assert (H1 : docQueue s1 = docQueue s /\ files s1 = files s
               /\ madeFlushers s1 = madeFlushers s
               /\ indexedDocs (trace s1) = indexedDocs (trace s)
               /\ answers (trace s1) = answers (trace s)
               /\ queueNotifier s1 = queueNotifier s).
  { subst s1. destruct (files s !! _); simpl; rewrite ?indexedDocs_app, ?answers_app;
      simpl; rewrite ?app_nil_r; auto 10. }
  destruct H1 as (Hq1 & Hf1 & Hm1 & Hi1 & Ha1 & Hn1). rewrite Hq1, Hn1.
  destruct (writeEntries io (docQueue s) None 0) as [[written err] deferred] eqn:Hw.
  pose proof (writeEntries_flushers _ _ _ _ _ _ _ Hw) as ->.
  exists written, err. split; [reflexivity|].
  destruct (runDeferred_ledger (queueNotifier s) (queuedFlushers (docQueue s))
              (Some (Errorf "indexer closing" []))) as [Hd1 Hd2].
  destruct (runDeferred (queueNotifier s) (queuedFlushers (docQueue s))
              (Some (Errorf "indexer closing" []))) as [notified waits].
  cbn [fst] in Hd1, Hd2.
  cbn [trace docQueue madeFlushers workerExited files queueNotifier indexPath
       emit setFiles setQueue setWaits].
  rewrite !indexedDocs_app, !answers_app, Hd1, Hd2, Hf1, Hi1, Ha1, Hm1.
  destruct err, waits, (closeFails io); cbn [indexedDocs answers]; rewrite ?app_nil_r; auto 10.
Qed.

(** [writeAheadLog] returns when no owner of a queued flusher waits at its
    send. *)
Lemma writeAheadLog_returns (io : ioFaults) s :
  workerWaits s = None ->
  (forall f, In f (queuedFlushers (docQueue s)) -> ownerAtSend f (queueNotifier s) = false) ->
  workerWaits (writeAheadLog aheadLogFname path_Join io s) = None.
Proof.
  intros Hws Hfree. unfold writeAheadLog.
  destruct (createFails io); [now destruct (files s !! _)|].
  assert (H1 : forall s1,
             s1 = match files s !! getAheadLogPath aheadLogFname path_Join s with
                  | Some _ =>
                      emit [EvLog "[ERROR] file %q already exists and would be rewritten"] s
                  | None => s
                  end ->
             docQueue s1 = docQueue s /\ queueNotifier s1 = queueNotifier s).
  { intros s1 ->. now destruct (files s !! _). }
  destruct (H1 _ eq_refl) as [-> ->].
  destruct (writeEntries io (docQueue s) None 0) as [[written err] deferred] eqn:Hw.
  pose proof (writeEntries_flushers _ _ _ _ _ _ _ Hw) as ->.
  now rewrite (runDeferred_nobody _ _ _ Hfree).
Qed.

End EngineLedger.

Section EngineRuns.

Import Buffered Ledger.

Context {Index Batch : Type} {engine : searchEngine Index Batch} {codec : jsonCodec}.
Variable aheadLogFname : string.
Variable path_Join : string -> string -> string.
Implicit Types s : bufferedEngine (Index := Index).

Lemma workerIteration_ledger (sel : selected) s s1 (cont : bool) :
  workerIteration sel s = Some (s1, cont) ->
  indexedDocs (trace s1) ++ queuedDocs (docQueue s1)
  = indexedDocs (trace s) ++ queuedDocs (docQueue s)
  /\ workerExited s1 = workerExited s.
Proof.
  unfold workerIteration. destruct sel.
  - intros H. injection H as <- <-.
    destruct (indexBatch_ledger s) as (Hq & Hi & _ & _ & Hex & _).
    destruct (workerWaits (indexBatch s)); cbn [trace docQueue workerExited emit];
      rewrite ?indexedDocs_app, Hq, Hi; simpl; rewrite ?app_nil_r; auto.
  - destruct (receive (queueNotifier s)) as [[[force cont'] c]|]; [|discriminate].
    intros H. injection H as <- <-.
    destruct (force || _)%bool; [|auto].
    destruct (indexBatch_ledger (setNotifier c s)) as (Hq & Hi & _ & _ & Hex & _).
    rewrite Hq, Hi, app_nil_r. auto.
Qed.

(** The loop ends on the closed notifier only, where nobody waits at a
    send: the worker goes on to the ahead log and does not wait there. *)
Lemma workerIteration_ends (sel : selected) s s1 :
  workerIteration sel s = Some (s1, false) ->
  workerWaits s = None ->
  workerWaits s1 = None /\ chSenders (queueNotifier s1) = [].
Proof.
  unfold workerIteration. destruct sel; [discriminate|].
  unfold receive. destruct (chSenders (queueNotifier s)) as [|x rest] eqn:Hnone; [|discriminate].
  destruct (chClosed (queueNotifier s)); [|discriminate].
  intros H Hws. injection H as <-.
  assert (Hfree : forall q f,
             In f (queuedFlushers q)
             -> ownerAtSend f (queueNotifier (setNotifier (queueNotifier s) s)) = false).
  { intros q f _. now apply ownerAtSend_nobody. }
  match goal with |- context [if ?b then _ else _] => destruct b end.
  - split; [apply indexBatch_returns; [exact Hws | apply Hfree]|].
    now rewrite indexBatch_notifier.
  - split; [exact Hws | exact Hnone].
Qed.

Lemma writeAheadLog_after_loop (io : ioFaults) (x : list event) s1 :
  workerWaits s1 = None -> chSenders (queueNotifier s1) = [] ->
  workerWaits (writeAheadLog aheadLogFname path_Join io (emit x s1)) = None.
Proof.
  intros Hws Hnone. apply writeAheadLog_returns; [exact Hws|].
  intros f _. now apply ownerAtSend_nobody.
Qed.

Lemma step_keeps_exited (o : op) s s1 :
  step aheadLogFname path_Join o s = Returned s1 ->
  workerExited s = true -> workerExited s1 = true.
Proof.
  destruct o as [doc| |commentID|sel io|]; cbn [step].
  - rewrite IndexDocument_course. destruct (chClosed (queueNotifier s)); [discriminate|].
    intros H. now injection H as <-.
  - rewrite Flush_course. destruct (chClosed (queueNotifier s)); [discriminate|].
    intros H. now injection H as <-.
  - intros H. injection H as <-. unfold Delete.
    now destruct (se_Delete (index s) commentID) as [index' [err|]].
  - intros H. injection H as <-. unfold indexDocumentWorker. intros Hex.
    rewrite Hex. exact Hex.
  - unfold Close. destruct (chClosed (queueNotifier s)); [discriminate|].
    destruct (chSenders (queueNotifier s)); [|discriminate].
    destruct (se_Close (index s)) as [index' err].
    intros H. now injection H as <-.
Qed.

Lemma run_keeps_exited (ops : list op) s s' (p : option error) :
  run aheadLogFname path_Join ops s = (s', p) ->
  workerExited s = true -> workerExited s' = true.
Proof.
  revert s. induction ops as [|o ops IH]; intros s; simpl.
  - intros H. now injection H as <- <-.
  - destruct (step aheadLogFname path_Join o s) as [s1|m] eqn:Hstep.
    + intros H Hex. eapply IH; [exact H|]. eapply step_keeps_exited; eauto.
    + intros H. now injection H as <- <-.
Qed.

Lemma step_ledger (o : op) s s1 :
  step aheadLogFname path_Join o s = Returned s1 ->
  workerExited s1 = false ->
  indexedDocs (trace s1) ++ queuedDocs (docQueue s1)
  = indexedDocs (trace s) ++ queuedDocs (docQueue s) ++ acceptedDocs [o].
Proof.
  destruct o as [doc| |commentID|sel io|]; cbn [step].
  - rewrite IndexDocument_course. destruct (chClosed (queueNotifier s)); [discriminate|].
    intros H _. injection H as <-. simpl. now rewrite queuedDocs_app.
  - rewrite Flush_course. destruct (chClosed (queueNotifier s)); [discriminate|].
    intros H _. injection H as <-. simpl. now rewrite queuedDocs_app, !app_nil_r.
  - intros H _. injection H as <-. unfold Delete.
    destruct (se_Delete (index s) commentID) as [index' [err|]]; simpl; now rewrite app_nil_r.
  - intros H. injection H as <-. unfold indexDocumentWorker. cbn [acceptedDocs].
    rewrite app_nil_r.
    destruct (workerExited s); [reflexivity|].
    destruct (workerWaits s) eqn:Hws; [reflexivity|].
    destruct (workerIteration sel s) as [[s1 cont]|] eqn:Hit; [|reflexivity].
    destruct (workerWaits s1) eqn:Hws1; [intros _; now apply workerIteration_ledger in Hit|].
    destruct cont; [intros _; now apply workerIteration_ledger in Hit|].
    destruct (workerIteration_ends sel s s1 Hit Hws) as [_ Hnone].
    unfold ended. rewrite (writeAheadLog_after_loop io _ s1 Hws1 Hnone). discriminate.
  - unfold Close. destruct (chClosed (queueNotifier s)); [discriminate|].
    destruct (chSenders (queueNotifier s)); [|discriminate].
    destruct (se_Close (index s)) as [index' err].
    intros H _. injection H as <-. simpl. now rewrite app_nil_r.
Qed.

(** X1: while the worker runs no document is lost, repeated or reordered: the
    documents given to [batch.Index], followed by the documents still in the
    queue, are the ones there at the start followed by the ones that
    [IndexDocument] took, in the order of the calls. *)
Theorem documents_kept_in_order (ops : list op) s s' :
  run aheadLogFname path_Join ops s = (s', None) ->
  workerExited s' = false ->
  indexedDocs (trace s') ++ queuedDocs (docQueue s')
  = indexedDocs (trace s) ++ queuedDocs (docQueue s) ++ acceptedDocs ops.
Proof.
  revert s. induction ops as [|o ops IH]; intros s; simpl.
  - intros H _. injection H as <-. now rewrite app_nil_r.
  - destruct (step aheadLogFname path_Join o s) as [s1|m] eqn:Hstep; [|discriminate].
    intros Hrun Hex.
    assert (Hex1 : workerExited s1 = false).
    { destruct (workerExited s1) eqn:E; [|reflexivity].
      rewrite (run_keeps_exited _ _ _ _ Hrun E) in Hex. discriminate. }
    rewrite (IH s1 Hrun Hex), app_assoc, (step_ledger o s s1 Hstep Hex1).
    destruct o; simpl; rewrite <- ?app_assoc, ?app_nil_r; reflexivity.
Qed.

Lemma tidy_within s s1 (l k : list nat) :
  tidy s ->
  map fst (answers (trace s1)) ++ queuedFlushers (docQueue s1) = l ->
  l `sublist_of` k ->
  k ≡ₚ map fst (answers (trace s)) ++ queuedFlushers (docQueue s) ->
  madeFlushers s <= madeFlushers s1 ->
  tidy s1.
Proof.
  intros [Hnd Hlt] <- Hsub Hperm Hmade. split.
  - eapply sublist_NoDup; [|exact Hsub]. now rewrite Hperm.
  - intros g Hin. apply list_elem_of_In in Hin.
    pose proof (elem_of_sublist _ _ _ Hin Hsub) as Hk. rewrite Hperm in Hk.
    apply list_elem_of_In in Hk. specialize (Hlt g Hk). lia.
Qed.

Lemma tidy_permuted s s1 (l : list nat) :
  tidy s ->
  map fst (answers (trace s1)) ++ queuedFlushers (docQueue s1) = l ->
  l ≡ₚ map fst (answers (trace s)) ++ queuedFlushers (docQueue s) ->
  madeFlushers s <= madeFlushers s1 ->
  tidy s1.
Proof. intros Ht Hl Hperm Hmade. now apply (tidy_within s s1 l l). Qed.

Lemma answered_flushers (c : chanBool) (l : list nat) (err : option error) :
  exists k, map fst (map (fun f => (f, err)) (reached c (rev l))) `sublist_of` k /\ k ≡ₚ l.
Proof.
  exists (rev l). split.
  - rewrite map_map. simpl. rewrite map_id. apply reached_sublist.
  - symmetry. apply Permutation_rev.
Qed.

Lemma indexBatch_tidy s : tidy s -> tidy (indexBatch s).
Proof.
  intros Ht. destruct (indexBatch_ledger s) as (Hq & _ & Ha & Hm & _).
  destruct (answered_flushers (queueNotifier s) (queuedFlushers (docQueue s)) None)
    as (k & Hsub & Hperm).
  eapply (tidy_within s _ _ (map fst (answers (trace s)) ++ k));
    [exact Ht | reflexivity | | now rewrite Hperm | lia].
  rewrite Hq, Ha, map_app, app_nil_r. now apply sublist_app.
Qed.

Lemma writeAheadLog_tidy (io : ioFaults) s :
  tidy s -> tidy (writeAheadLog aheadLogFname path_Join io s).
Proof.
  intros Ht. destruct (createFails io) as [e|] eqn:Hc.
  - unfold writeAheadLog. rewrite Hc.
    eapply (tidy_permuted s); [exact Ht | reflexivity | | ].
    + destruct (files s !! _); cbn [trace docQueue emit]; rewrite ?answers_app; simpl;
        rewrite ?app_nil_r; reflexivity.
    + destruct (files s !! _); simpl; lia.
  - destruct (writeAheadLog_ledger aheadLogFname path_Join io s Hc)
      as (written & err & _ & Hq & _ & _ & Ha & Hm).
    destruct (answered_flushers (queueNotifier s) (queuedFlushers (docQueue s))
                (Some (Errorf "indexer closing" []))) as (k & Hsub & Hperm).
    eapply (tidy_within s _ _ (map fst (answers (trace s)) ++ k));
      [exact Ht | reflexivity | | now rewrite Hperm | lia].
    rewrite Hq, Ha, map_app, app_nil_r. now apply sublist_app.
Qed.

Lemma same_ledger_tidy s s1 :
  tidy s -> answers (trace s1) = answers (trace s) -> docQueue s1 = docQueue s ->
  madeFlushers s1 = madeFlushers s -> tidy s1.
Proof.
  intros Ht Ha Hq Hm. eapply (tidy_permuted s); [exact Ht | reflexivity | | lia].
  now rewrite Ha, Hq.
Qed.

Lemma step_tidy (o : op) s s1 :
  step aheadLogFname path_Join o s = Returned s1 -> tidy s -> tidy s1.
Proof.
  destruct o as [doc| |commentID|sel io|]; cbn [step].
  - rewrite IndexDocument_course. destruct (chClosed (queueNotifier s)); [discriminate|].
    intros H Ht. injection H as <-.
    eapply (tidy_permuted s); [exact Ht | reflexivity | | simpl; lia].
    simpl. now rewrite queuedFlushers_app, app_nil_r.
  - rewrite Flush_course. destruct (chClosed (queueNotifier s)); [discriminate|].
    intros H [Hnd Hlt]. injection H as <-. split; simpl.
    + rewrite queuedFlushers_app. simpl. rewrite app_assoc.
      rewrite <- Permutation_cons_append. apply NoDup_cons. split; [|exact Hnd].
      rewrite list_elem_of_In. intros Hin. specialize (Hlt _ Hin). lia.
    + intros g. rewrite queuedFlushers_app. simpl. rewrite app_assoc.
      intros Hin. apply in_app_or in Hin. destruct Hin as [Hin|[<-|[]]]; [|lia].
      specialize (Hlt _ Hin). lia.
  - intros H Ht. injection H as <-. unfold Delete.
    destruct (se_Delete (index s) commentID) as [index' [err|]];
      now apply (same_ledger_tidy s).
  - intros H Ht. injection H as <-. unfold indexDocumentWorker.
    destruct (workerExited s); [exact Ht|].
    destruct (workerWaits s); [exact Ht|].
    assert (Hloop : forall s1 cont, workerIteration sel s = Some (s1, cont) -> tidy s1).
    { intros s1 cont. unfold workerIteration. destruct sel.
      - intros H. injection H as <- <-.
        destruct (workerWaits (indexBatch s)); [now apply indexBatch_tidy|].
        apply (same_ledger_tidy (indexBatch s)); [now apply indexBatch_tidy | | reflexivity..].
        cbn [trace emit]. rewrite answers_app. simpl. now rewrite app_nil_r.
      - destruct (receive (queueNotifier s)) as [[[force cont'] c]|]; [|discriminate].
        intros H. injection H as <- <-.
        assert (Ht' : tidy (setNotifier c s)) by now apply (same_ledger_tidy s).
        destruct (force || _)%bool; [now apply indexBatch_tidy | exact Ht']. }
    destruct (workerIteration sel s) as [[s1 cont]|]; [|exact Ht].
    specialize (Hloop s1 cont eq_refl).
    destruct (workerWaits s1); [exact Hloop|].
    destruct cont; [exact Hloop|].
    assert (Hlog : tidy (writeAheadLog aheadLogFname path_Join io
                           (emit [EvLog "[INFO] shutdown bleve indexer worker"] s1))).
    { apply writeAheadLog_tidy. apply (same_ledger_tidy s1); [exact Hloop | | reflexivity..].
      cbn [trace emit]. rewrite answers_app. simpl. now rewrite app_nil_r. }
    unfold ended. destruct (workerWaits (writeAheadLog _ _ _ _)); [exact Hlog|].
    now apply (same_ledger_tidy (writeAheadLog aheadLogFname path_Join io
                                   (emit [EvLog "[INFO] shutdown bleve indexer worker"] s1))).
  - unfold Close. destruct (chClosed (queueNotifier s)); [discriminate|].
    destruct (chSenders (queueNotifier s)); [|discriminate].
    destruct (se_Close (index s)) as [index' err].
    intros H Ht. injection H as <-. now apply (same_ledger_tidy s).
Qed.

(** X2: every flusher is answered at most once, and a flusher that was answered
    is no longer in the queue, whatever calls and worker steps interleave. *)
Theorem flusher_answered_once (ops : list op) s s' (p : option error) :
  tidy s ->
  run aheadLogFname path_Join ops s = (s', p) ->
  NoDup (map fst (answers (trace s')))
  /\ forall g err, In (g, err) (answers (trace s')) -> ~ In (QFlusher g) (docQueue s').
Proof.
  intros Ht Hrun.
  assert (Ht' : tidy s').
  { revert s Ht Hrun. induction ops as [|o ops IH]; intros s Ht; simpl.
    - intros H. now injection H as <- <-.
    - destruct (step aheadLogFname path_Join o s) as [s1|m] eqn:Hstep.
      + intros H. eapply IH; [|exact H]. eapply step_tidy; eauto.
      + intros H. now injection H as <- <-. }
  destruct Ht' as [Hnd _]. apply NoDup_app in Hnd. destruct Hnd as (Hnd & Hdis & _).
  split; [exact Hnd|].
  intros g err Hin Hq. apply (Hdis g).
  - rewrite list_elem_of_In. apply in_map_iff. exists (g, err). auto.
  - rewrite list_elem_of_In. now apply queuedFlushers_In.
Qed.

End EngineRuns.

(** ** The buffered engine: what the ahead log holds *)

Section LogContents.

Import Buffered Ledger.

Context {Index Batch : Type} {engine : searchEngine Index Batch} {codec : jsonCodec}.
Variable aheadLogFname : string.
Variable path_Join : string -> string -> string.
Implicit Types s : bufferedEngine (Index := Index).

Lemma writeAheadLog_complete (io : ioFaults) s :
  createFails io = None ->
  (forall n, writeFails io n = None) ->
  (forall d, In d (queuedDocs (docQueue s)) -> exists data, json_Marshal d = Ok data) ->
  files (writeAheadLog aheadLogFname path_Join io s) !! getAheadLogPath aheadLogFname path_Join s
  = Some (logOf (queuedDocs (docQueue s)))
  /\ docQueue (writeAheadLog aheadLogFname path_Join io s) = []
  /\ answers (trace (writeAheadLog aheadLogFname path_Join io s))
     = answers (trace s)
       ++ map (fun f => (f, Some (Errorf "indexer closing" [])))
            (reached (queueNotifier s) (rev (queuedFlushers (docQueue s)))).
Proof.
  intros Hc Hw Hm.
  destruct (writeAheadLog_ledger aheadLogFname path_Join io s Hc)
    as (written & err & Hentries & Hq & Hf & _ & Ha & _).
  rewrite (writeEntries_complete io _ Hw Hm 0) in Hentries.
  injection Hentries as <- <-.
  rewrite Hf, lookup_insert_eq. auto.
Qed.

Lemma reached_nobody (c : chanBool) (fs : list nat) : chSenders c = [] -> reached c fs = fs.
Proof. intros Hnone. apply reached_all. intros f _. now apply ownerAtSend_nobody. Qed.

(** X3: when the file can be made, every write succeeds and every queued
    document can be encoded, [writeAheadLog] leaves a file that holds the
    records of the queued documents in the order of the queue, empties the
    queue, and answers the queued flushers with "indexer closing", last
    queued first and up to the first whose owner still waits at its send on
    the notifier: all of them when nobody waits there. *)
Theorem writeAheadLog_saves_queue (io : ioFaults) s :
  createFails io = None ->
  (forall n, writeFails io n = None) ->
  (forall d, In d (queuedDocs (docQueue s)) -> exists data, json_Marshal d = Ok data) ->
  files (writeAheadLog aheadLogFname path_Join io s) !! getAheadLogPath aheadLogFname path_Join s
  = Some (logOf (queuedDocs (docQueue s)))
  /\ docQueue (writeAheadLog aheadLogFname path_Join io s) = []
  /\ answers (trace (writeAheadLog aheadLogFname path_Join io s))
     = answers (trace s)
       ++ map (fun f => (f, Some (Errorf "indexer closing" [])))
            (reached (queueNotifier s) (rev (queuedFlushers (docQueue s))))
  /\ (chSenders (queueNotifier s) = [] ->
      answers (trace (writeAheadLog aheadLogFname path_Join io s))
      = answers (trace s)
        ++ map (fun f => (f, Some (Errorf "indexer closing" [])))
             (rev (queuedFlushers (docQueue s)))).
Proof.
  intros Hc Hw Hm.
  destruct (writeAheadLog_complete io s Hc Hw Hm) as (Hfile & Hq & Ha).
  repeat (split; [assumption|]).
  intros Hnone. now rewrite Ha, reached_nobody.
Qed.


Lemma ReadBytes_record (data rest : list byte) :
  ~ In x00 data ->
  ReadBytes x00 (data ++ x00 :: rest)
  = ((data ++ [x00]) :: fst (ReadBytes x00 rest), snd (ReadBytes x00 rest)).
Proof.
  intros Hno. induction data as [|b data IH]; simpl.
  - now destruct (ReadBytes x00 rest).
  - rewrite IH by (intros Hin; apply Hno; now right).
    destruct (Byte.eqb b x00) eqn:E; [|reflexivity].
    exfalso. apply Hno. left. symmetry. now apply Byte.byte_dec_bl.
Qed.

(** X5: the log is read back record by record: when no encoding holds a zero
    byte, [ReadBytes] cuts the log of a list of documents into their records,
    in order and with nothing left over, and each record without its last
    byte is the encoding of its document. *)
Theorem ahead_log_read_by_record (docs : list DocumentComment) :
  (forall d, In d docs -> exists data, json_Marshal d = Ok data /\ ~ In x00 data) ->
  ReadBytes x00 (logOf docs) = (map logRecord docs, [])
  /\ Forall (fun d => json_Marshal d = Ok (removelast (logRecord d))) docs.
Proof.
  induction docs as [|d docs IH]; intros Hm; [split; [reflexivity | constructor]|].
  destruct (Hm d (or_introl eq_refl)) as (data & Hdata & Hno).
  destruct IH as [IH1 IH2]; [intros d' Hin; apply Hm; now right|].
  assert (Hrec : logRecord d = data ++ [x00]) by (unfold logRecord; now rewrite Hdata).
  split.
  - simpl. rewrite Hrec, <- app_assoc. simpl.
    rewrite (ReadBytes_record data (logOf docs) Hno), IH1. reflexivity.
  - constructor; [|exact IH2]. now rewrite Hrec, removelast_last.
Qed.

Lemma ReadBytes_no_chunk (content : list byte) :
  fst (ReadBytes x00 content) = [] -> ~ In x00 content.
Proof.
  intros Hnone Hin. apply in_split in Hin. destruct Hin as (data & rest & ->).
  destruct (ReadBytes_finds_chunk data rest) as (chunk & chunks & Hc).
  rewrite Hc in Hnone. discriminate.
Qed.

(** X10: when the log file is there and opens, [Init] returns without an
    error only for a log without a zero byte, that is, without a complete
    record: it then leaves the queue as it was and removes the file, so that
    bytes of a record that was cut short are dropped.  When it returns an
    error, the queue and the files are as before. *)
Theorem Init_succeeds_without_records (ctxDone : nat -> bool) (io : ioFaults)
  (s s' : bufferedEngine (Index := Index)) (content : list byte) (err : option error) :
  files s !! getAheadLogPath aheadLogFname path_Join s = Some content ->
  openFails io = None ->
  Init aheadLogFname path_Join ctxDone io s = Returns (s', (true, err)) ->
  docQueue s' = docQueue s
  /\ (err = None ->
      ~ In x00 content
      /\ (removeFails io = None ->
          files s' !! getAheadLogPath aheadLogFname path_Join s = None))
  /\ (err <> None -> files s' = files s).
Proof.
  intros Hfile Hopen HInit.
  destruct (Init_outcomes aheadLogFname path_Join ctxDone io s s' content err Hfile Hopen HInit)
    as [Hq Hcases].
  split; [exact Hq|]. destruct err as [e|]; split.
  - discriminate.
  - intros _. exact Hcases.
  - intros _. destruct Hcases as [Hnone Hgone]. split; [now apply ReadBytes_no_chunk | exact Hgone].
  - intros Hne. now contradiction Hne.
Qed.

End LogContents.

(** ** The buffered engine: flush, close and shutdown as sequences of steps *)

Section Sequences.

Import Buffered Ledger.

Context {Index Batch : Type} {engine : searchEngine Index Batch} {codec : jsonCodec}.
Variable aheadLogFname : string.
Variable path_Join : string -> string -> string.
Implicit Types s : bufferedEngine (Index := Index).

Lemma answers_In (tr : list event) (g : nat) (e : option error) :
  In (g, e) (answers tr) <-> In (EvNotify g e) tr.
Proof.
  induction tr as [|ev tr IH]; simpl; [tauto|].
  destruct ev as [d err|err|f err|line|]; simpl; rewrite IH; split;
    try (intros H; now right); try (intros [H|H]; [discriminate | exact H]).
  - intros [H|H]; [injection H as -> ->; now left | now right].
  - intros [H|H]; [injection H as -> ->; now left | now right].
Qed.

Lemma delivered_answers (f : nat) (tr : list event) :
  delivered f tr = option_map snd (find (fun p => Nat.eqb f (fst p)) (answers tr)).
Proof.
  induction tr as [|ev tr IH]; [reflexivity|].
  destruct ev as [d err|err|g err|line|]; simpl; try exact IH.
  destruct (Nat.eqb f g); [reflexivity | exact IH].
Qed.

Lemma find_answer_app (f : nat) (a b : list (nat * option error)) :
  (forall e, ~ In (f, e) a) ->
  find (fun p => Nat.eqb f (fst p)) (a ++ b) = find (fun p => Nat.eqb f (fst p)) b.
Proof.
  induction a as [|[g e] a IH]; intros Hno; [reflexivity|]. simpl.
  destruct (Nat.eqb_spec f g) as [->|Hne].
  - exfalso. apply (Hno e). now left.
  - apply IH. intros e' Hin. apply (Hno e'). now right.
Qed.

Lemma find_answer_same (f : nat) (r : option error) (l : list nat) :
  In f l ->
  option_map snd (find (fun p => Nat.eqb f (fst p)) (map (fun g => (g, r)) l)) = Some r.
Proof.
  induction l as [|g l IH]; intros Hin; [destruct Hin|]. simpl.
  destruct (Nat.eqb_spec f g) as [->|Hne]; [reflexivity|].
  apply IH. destruct Hin as [->|Hin]; [contradiction | exact Hin].
Qed.

Lemma indexBatch_commits s :
  docQueue s <> [] ->
  exists pre err post, trace (indexBatch s) = trace s ++ pre ++ EvBatch err :: post.
Proof.
  intros Hne. unfold indexBatch. destruct (docQueue s) as [|entry q]; [contradiction|].
  destruct (fillBatch (entry :: q) (se_NewBatch (index s))) as [[batch evs] deferred].
  destruct (se_Batch (index s) batch) as [index' err].
  destruct (runDeferred (queueNotifier s) deferred None) as [notified waits].
  eexists evs, err, _. reflexivity.
Qed.

Lemma writeAheadLog_index (io : ioFaults) s :
  index (writeAheadLog aheadLogFname path_Join io s) = index s.
Proof.
  unfold writeAheadLog.
  destruct (files s !! getAheadLogPath aheadLogFname path_Join s), (createFails io);
    try reflexivity;
    destruct (writeEntries io _ None 0) as [[written err] deferred];
    destruct (runDeferred _ _ _) as [notified waits]; reflexivity.
Qed.

Lemma indexBatch_index_setNotifier (c : chanBool) s :
  index (indexBatch (setNotifier c s)) = index (indexBatch s).
Proof.
  unfold indexBatch. cbn [docQueue index setNotifier].
  destruct (docQueue s) as [|entry q]; [reflexivity|].
  destruct (fillBatch (entry :: q) (se_NewBatch (index s))) as [[batch evs] deferred].
  destruct (se_Batch (index s) batch) as [index' err].
  destruct (runDeferred (queueNotifier (setNotifier c s)) deferred None) as [notified waits].
  destruct (runDeferred (queueNotifier s) deferred None) as [notified' waits']. reflexivity.
Qed.

(** X6: a [Flush] followed by the worker's receive of its signal drains the
    queue: on an engine with an open notifier, nobody waiting at it and a
    running worker, all queued documents are given to the back end in their
    order, a batch is committed even when the queue held no document, the
    queue is empty afterwards and [Flush] returns nil. *)
Theorem flush_drains_queue (io : ioFaults) s :
  chClosed (queueNotifier s) = false ->
  chSenders (queueNotifier s) = [] ->
  workerExited s = false ->
  workerWaits s = None ->
  Barrier.flushersKnown s ->
  exists s',
    run aheadLogFname path_Join [OpFlush; OpWorker NotifierC io] s = (s', None)
    /\ docQueue s' = []
    /\ flushResult (madeFlushers s) s' = Some None
    /\ indexedDocs (trace s') = indexedDocs (trace s) ++ queuedDocs (docQueue s)
    /\ workerExited s' = false
    /\ workerWaits s' = None
    /\ exists pre err post, trace s' = trace s ++ pre ++ EvBatch err :: post.
Proof.
  intros Hopen Hnone Hex Hws [_ Hknown].
  set (s1 := setNotifier (mkChan false [])
               (setNotifier (mkChan false [mkSender true (Some (madeFlushers s))])
                  (setQueue (docQueue s ++ [QFlusher (madeFlushers s)])
                     (setMadeFlushers (S (madeFlushers s)) s)))).
  assert (Hreturns : workerWaits (indexBatch s1) = None).
  { apply indexBatch_returns; [exact Hws|]. intros f _. now apply ownerAtSend_nobody. }
  exists (indexBatch s1).
  assert (Hrun : run aheadLogFname path_Join [OpFlush; OpWorker NotifierC io] s
                 = (indexBatch s1, None)).
  { cbn [run step]. rewrite Flush_course, Hopen, Hnone. cbn [stateOf app].
    unfold indexDocumentWorker. cbn [workerExited workerWaits setNotifier setQueue
                                     setMadeFlushers].
    rewrite Hex, Hws. unfold workerIteration, receive.
    cbn [queueNotifier chSenders chClosed setNotifier sValue orb].
    fold s1. now rewrite Hreturns. }
  destruct (indexBatch_ledger s1) as (Hq & Hi & Ha & _ & Hex' & _).
  rewrite reached_nobody in Ha by reflexivity.
  split; [exact Hrun|]. split; [exact Hq|]. split; [|split; [|split; [|split]]].
  - unfold flushResult. rewrite delivered_answers, Ha. subst s1.
    cbn [trace docQueue setNotifier setQueue setMadeFlushers].
    rewrite find_answer_app.
    + apply find_answer_same. apply -> in_rev. rewrite queuedFlushers_app.
      apply in_or_app. right. now left.
    + intros e Hin. apply answers_In in Hin. apply Hknown in Hin. lia.
  - rewrite Hi. subst s1. cbn [trace docQueue setNotifier setQueue setMadeFlushers].
    now rewrite queuedDocs_app, app_nil_r.
  - rewrite Hex'. exact Hex.
  - exact Hreturns.
  - destruct (indexBatch_commits s1) as (pre & err & post & Htr).
    + subst s1. cbn [docQueue setNotifier setQueue]. now destruct (docQueue s).
    + exists pre, err, post. exact Htr.
Qed.

(** X7: a graceful shutdown keeps what is queued: when [Close] finds fewer than
    [flushCount] entries in the queue and nobody waiting at the notifier,
    and the worker then sees the closed notifier, the worker returns, nothing
    more is indexed, and the ahead log holds the records of the queued
    documents (given that the file can be made and written and the documents
    can be encoded). *)
Theorem shutdown_saves_queue (io : ioFaults) s :
  chClosed (queueNotifier s) = false ->
  chSenders (queueNotifier s) = [] ->
  workerExited s = false ->
  workerWaits s = None ->
  (Z.of_nat (length (docQueue s)) < flushCount s)%Z ->
  createFails io = None ->
  (forall n, writeFails io n = None) ->
  (forall d, In d (queuedDocs (docQueue s)) -> exists data, json_Marshal d = Ok data) ->
  exists s',
    run aheadLogFname path_Join [OpClose; OpWorker NotifierC io] s = (s', None)
    /\ workerExited s' = true
    /\ docQueue s' = []
    /\ files s' !! getAheadLogPath aheadLogFname path_Join s
       = Some (logOf (queuedDocs (docQueue s)))
    /\ indexedDocs (trace s') = indexedDocs (trace s).
Proof.
  intros Hopen Hnone Hex Hws Hless Hc Hw Hm.
  destruct (se_Close (index s)) as [index' err] eqn:Hclose.
  set (s0 := setNotifier (mkChan true [])
               (setIndex index' (setNotifier (mkChan true []) s))).
  set (s1 := emit [EvLog "[INFO] shutdown bleve indexer worker"] s0).
  assert (Hreturns : workerWaits (writeAheadLog aheadLogFname path_Join io s1) = None)
    by now apply writeAheadLog_after_loop.
  exists (setExited (writeAheadLog aheadLogFname path_Join io s1)).
  assert (Hrun : run aheadLogFname path_Join [OpClose; OpWorker NotifierC io] s
                 = (setExited (writeAheadLog aheadLogFname path_Join io s1), None)).
  { cbn [run step]. unfold Close. rewrite Hopen, Hnone, Hclose. cbn [stateOf].
    unfold indexDocumentWorker. cbn [workerExited workerWaits setNotifier setIndex].
    rewrite Hex, Hws. unfold workerIteration, receive.
    cbn [queueNotifier chSenders chClosed setNotifier setIndex orb docQueue flushCount].
    apply Z.leb_gt in Hless. rewrite Hless. fold s0.
    replace (workerWaits s0) with (workerWaits s) by reflexivity.
    rewrite Hws. fold s1. unfold ended. now rewrite Hreturns. }
  destruct (writeAheadLog_complete aheadLogFname path_Join io s1 Hc Hw Hm)
    as (Hfile & Hq & _).
  destruct (writeAheadLog_ledger aheadLogFname path_Join io s1 Hc)
    as (_ & _ & _ & _ & _ & Hi & _).
  split; [exact Hrun|]. split; [reflexivity|]. split; [exact Hq|]. split; [exact Hfile|].
  cbn [trace setExited]. rewrite Hi. subst s1 s0. cbn [trace emit setNotifier setIndex].
  rewrite indexedDocs_app. simpl. now rewrite app_nil_r.
Qed.

(** X8: with [flushCount] entries or more in the queue at [Close], the worker
    drains the queue into a batch after the back end was closed: the batch is
    committed on the closed back end, the queued flushers are answered nil,
    and the ahead log is written empty. *)
Theorem shutdown_with_full_queue (io : ioFaults) s :
  chClosed (queueNotifier s) = false ->
  chSenders (queueNotifier s) = [] ->
  workerExited s = false ->
  workerWaits s = None ->
  (flushCount s <= Z.of_nat (length (docQueue s)))%Z ->
  createFails io = None ->
  exists s' sClosed err,
    Close s = AwaitsWorker sClosed (fun s2 => Returns (s2, err))
    /\ run aheadLogFname path_Join [OpClose; OpWorker NotifierC io] s = (s', None)
    /\ workerExited s' = true
    /\ index s' = index (indexBatch sClosed)
    /\ indexedDocs (trace s') = indexedDocs (trace s) ++ queuedDocs (docQueue s)
    /\ answers (trace s')
       = answers (trace s) ++ map (fun f => (f, None)) (rev (queuedFlushers (docQueue s)))
    /\ files s' !! getAheadLogPath aheadLogFname path_Join s = Some [].
Proof.
  intros Hopen Hnone Hex Hws Hfull Hc.
  destruct (se_Close (index s)) as [index' err] eqn:Hclose.
  set (sClosed := setIndex index' (setNotifier (mkChan true []) s)).
  set (s0 := indexBatch (setNotifier (mkChan true []) sClosed)).
  set (s1 := emit [EvLog "[INFO] shutdown bleve indexer worker"] s0).
  assert (Hbatch : workerWaits s0 = None).
  { apply indexBatch_returns; [exact Hws|]. intros f _. now apply ownerAtSend_nobody. }
  assert (Hlog : workerWaits (writeAheadLog aheadLogFname path_Join io s1) = None).
  { apply writeAheadLog_after_loop; [exact Hbatch|]. subst s0.
    now rewrite indexBatch_notifier. }
  exists (setExited (writeAheadLog aheadLogFname path_Join io s1)), sClosed, err.
  assert (HClose : Close s = AwaitsWorker sClosed (fun s2 => Returns (s2, err))).
  { unfold Close. now rewrite Hopen, Hnone, Hclose. }
  assert (Hrun : run aheadLogFname path_Join [OpClose; OpWorker NotifierC io] s
                 = (setExited (writeAheadLog aheadLogFname path_Join io s1), None)).
  { cbn [run step]. rewrite HClose. cbn [stateOf].
    unfold indexDocumentWorker. subst sClosed.
    cbn [workerExited workerWaits setNotifier setIndex].
    rewrite Hex, Hws. unfold workerIteration, receive.
    cbn [queueNotifier chSenders chClosed setNotifier setIndex orb docQueue flushCount].
    apply Z.leb_le in Hfull. rewrite Hfull. fold s0. rewrite Hbatch. fold s1.
    unfold ended. now rewrite Hlog. }
  destruct (indexBatch_ledger (setNotifier (mkChan true []) sClosed))
    as (Hq & Hi & Ha & _ & _ & Hf & _ & Hp).
  rewrite reached_nobody in Ha by reflexivity.
  assert (Hq1 : docQueue s1 = []) by exact Hq.
  destruct (writeAheadLog_ledger aheadLogFname path_Join io s1 Hc)
    as (written & err' & Hentries & _ & Hfiles & Hi' & Ha' & _).
  rewrite Hq1 in Hentries, Ha'. simpl in Hentries. injection Hentries as <- <-.
  split; [exact HClose|]. split; [exact Hrun|]. split; [reflexivity|].
  split; [|split; [|split]].
  - cbn [index setExited]. rewrite writeAheadLog_index. subst s1 s0. cbn [index emit].
    apply indexBatch_index_setNotifier.
  - cbn [trace setExited]. rewrite Hi'. subst s1 s0. cbn [trace emit].
    rewrite indexedDocs_app, Hi. simpl. now rewrite app_nil_r.
  - cbn [trace setExited]. rewrite Ha'. subst s1 s0. cbn [trace emit].
    rewrite answers_app, Ha. simpl. now rewrite !app_nil_r.
  - cbn [files setExited]. rewrite Hfiles.
    replace (getAheadLogPath aheadLogFname path_Join s1)
      with (getAheadLogPath aheadLogFname path_Join s)
      by (unfold getAheadLogPath; subst s1 s0; cbn [indexPath emit]; now rewrite Hp).
    apply lookup_insert_eq.
Qed.

(** X9: [Close] is not to be called twice: once a [Close] has closed the
    notifier and the back end, where it waits for the worker, a further
    [Close], [IndexDocument] or [Flush] panics on the closed notifier;
    [IndexDocument] and [Flush] have queued their entry by then. *)
Theorem closed_engine_panics (d : DocumentComment) s s'
  (resume : bufferedEngine -> call (bufferedEngine * option error)) :
  Close s = AwaitsWorker s' resume ->
  Close s' = Panics (LibError "runtime" "close of closed channel")
  /\ IndexDocument d s' = Panics (LibError "runtime" "send on closed channel")
  /\ Flush s' = Panics (LibError "runtime" "send on closed channel")
  /\ docQueue s' = docQueue s.
Proof.
  unfold Close. destruct (chClosed (queueNotifier s)); [discriminate|].
  destruct (chSenders (queueNotifier s)); [|discriminate].
  destruct (se_Close (index s)) as [index' e].
  intros H. injection H as <- _. repeat split.
Qed.

End Sequences.


(** ** The remote back end: enqueueing, construction, search and close *)

Section ElasticService.

Import Elastic.

Context {Client : Type}.
Variable NewClient : Config -> result Client.
Variable NewBulkIndexer : string -> Client -> result BulkIndexer.
Variable DocFromComment : Comment -> DocumentComment.
Variable json_Marshal : DocumentComment -> result (list byte).
Variable json_EncodeQuery : elacticQuery -> result (list byte).
Variable client_Search : Client -> string -> list byte -> result httpResponse.
Variable json_DecodeResponse : list byte -> result elacticResponse.
Variable biClose : BulkIndexer -> option error.
Implicit Types e : elastic (Client := Client).

(** X12: for a site with a bulk indexer and a context that is not cancelled,
    [Delete] and [IndexDocument] return nil and add one item at the end of
    that site's indexer: a delete of the comment, or an index of the encoded
    document under the document's own ID (the argument [commentID] of
    [IndexDocument] is not used).  The indexers of the other sites are as
    before. *)
Theorem elastic_enqueues e (siteID : string) (bi : BulkIndexer) :
  bulkIndexers e !! siteID = Some bi ->
  cancelled e = false ->
  (forall commentID,
      exists e',
        Delete siteID commentID e = (e', None)
        /\ bulkIndexers e' !! siteID
           = Some (mkBulkIndexer (biIndex bi) (biItems bi ++ [mkItem "delete" commentID None]))
        /\ forall other, other <> siteID -> bulkIndexers e' !! other = bulkIndexers e !! other)
  /\ (forall commentID comment data,
        locSiteID (cLocator comment) = siteID ->
        json_Marshal (DocFromComment comment) = Ok data ->
        exists e',
          IndexDocument DocFromComment json_Marshal commentID comment e = (e', None)
          /\ bulkIndexers e' !! siteID
             = Some (mkBulkIndexer (biIndex bi)
                       (biItems bi ++ [mkItem "index" (ID (DocFromComment comment)) (Some data)]))
          /\ forall other, other <> siteID ->
                           bulkIndexers e' !! other = bulkIndexers e !! other).
Proof.
  intros Hbi Hctx. split.
  - intros commentID. unfold Delete, biAdd. rewrite Hbi, Hctx.
    eexists. split; [reflexivity|]. simpl. split; [apply lookup_insert_eq|].
    intros other Hne. now apply lookup_insert_ne.
  - intros commentID comment data Hsite Hdata. unfold IndexDocument, biAdd.
    rewrite Hdata, Hsite, Hbi, Hctx.
    eexists. split; [reflexivity|]. simpl. split; [apply lookup_insert_eq|].
    intros other Hne. now apply lookup_insert_ne.
Qed.

Lemma makeBulkIndexers_sites (c : Client) (sites : list string) :
  forall acc bis,
    makeBulkIndexers NewBulkIndexer c sites acc = Ok bis ->
    forall site,
      (In site sites -> exists bi, NewBulkIndexer site c = Ok bi /\ bis !! site = Some bi)
      /\ (~ In site sites -> bis !! site = acc !! site).
Proof.
  induction sites as [|site0 rest IH]; intros acc bis Hmake site; simpl in Hmake.
  - injection Hmake as <-. split; [intros [] | reflexivity].
  - destruct (NewBulkIndexer site0 c) as [bi0|err] eqn:Hnew; [|discriminate].
    destruct (IH _ _ Hmake site) as [Hin Hout].
    destruct (in_dec string_dec site rest) as [Hrest|Hrest].
    + split; [intros _; now apply Hin | intros Hno; exfalso; apply Hno; now right].
    + rewrite (Hout Hrest). split.
      * intros [->|H]; [|contradiction]. exists bi0. split; [exact Hnew|].
        apply lookup_insert_eq.
      * intros Hno. apply lookup_insert_ne. intros ->. apply Hno. now left.
Qed.

Lemma makeBulkIndexers_fails (c : Client) (sites : list string) :
  forall acc site err,
    In site sites -> NewBulkIndexer site c = Err err ->
    exists err', makeBulkIndexers NewBulkIndexer c sites acc = Err err'.
Proof.
  induction sites as [|site0 rest IH]; intros acc site err Hin Hfail; [destruct Hin|].
  simpl. destruct (NewBulkIndexer site0 c) as [bi0|err0] eqn:Hnew; [|eauto].
  destruct Hin as [->|Hin]; [congruence|]. eapply IH; eauto.
Qed.

(** X13: a service that [newElasticService] returns has a bulk indexer for the
    configured sites and for no other, each the one the library made for the
    site, and its context is not cancelled; and when the library cannot make
    the indexer of one of the sites, the constructor fails. *)
Theorem elastic_indexer_per_site (params : SearcherParams) :
  (forall e,
      newElasticService NewClient NewBulkIndexer params = Ok e ->
      cancelled e = false
      /\ forall site,
          (In site (pSites params) ->
           exists bi, NewBulkIndexer site (client e) = Ok bi
                      /\ bulkIndexers e !! site = Some bi)
          /\ (~ In site (pSites params) -> bulkIndexers e !! site = None))
  /\ (forall site,
        In site (pSites params) ->
        (forall c, exists err, NewBulkIndexer site c = Err err) ->
        exists err, newElasticService NewClient NewBulkIndexer params = Err err).
Proof.
  split.
  - intros e. unfold newElasticService.
    destruct (_ || _)%bool; [discriminate|].
    destruct (parseSecret _ _) as [cfg' [err|]]; [discriminate|].
    destruct (NewClient cfg') as [c|err]; [|discriminate].
    destruct (makeBulkIndexers NewBulkIndexer c (pSites params) ∅) as [bis|err] eqn:Hmake;
      [|discriminate].
    intros H. injection H as <-. split; [reflexivity|].
    intros site. destruct (makeBulkIndexers_sites c _ _ _ Hmake site) as [Hin Hout].
    split; [exact Hin|]. intros Hno. simpl. rewrite (Hout Hno). apply lookup_empty.
  - intros site Hin Hfail. unfold newElasticService.
    destruct (_ || _)%bool; [eauto|].
    destruct (parseSecret _ _) as [cfg' [err|]]; [eauto|].
    destruct (NewClient cfg') as [c|err]; [|eauto].
    destruct (Hfail c) as [err Herr].
    destruct (makeBulkIndexers_fails c _ ∅ site err Hin Herr) as [err' ->]. eauto.
Qed.

Lemma closeIndexers_result (bis : list (string * BulkIndexer)) :
  forall errs,
    (closeIndexers biClose bis errs = errs
     /\ forall site bi, In (site, bi) bis -> biClose bi = None)
    \/ exists site bi err,
        In (site, bi) bis /\ biClose bi = Some err
        /\ closeIndexers biClose bis errs
           = [err; Wrapf err "cannot close indexer for site %s" [ArgString site]].
Proof.
  induction bis as [|[site0 bi0] rest IH]; intros errs; simpl.
  - left. split; [reflexivity | intros site bi []].
  - destruct (biClose bi0) as [err0|] eqn:Hclose.
    + right. destruct (IH [err0; Wrapf err0 "cannot close indexer for site %s" [ArgString site0]])
        as [[Hsame Hall] | (site & bi & err & Hin & Hc & Hres)].
      * exists site0, bi0, err0. split; [now left|]. split; [exact Hclose | exact Hsame].
      * exists site, bi, err. split; [now right|]. auto.
    + destruct (IH errs) as [[Hsame Hall] | (site & bi & err & Hin & Hc & Hres)].
      * left. split; [exact Hsame|]. intros site bi [H|H]; [now injection H as <- <- | eauto].
      * right. exists site, bi, err. split; [now right|]. auto.
Qed.

(** X14: [Close] cancels the context and leaves the indexers in place.  It
    returns nil exactly when every bulk indexer closes without error.
    Otherwise it reports one site only, however many failed: the error of
    that site's indexer and the same error wrapped with the site. *)
Theorem elastic_Close_reports e :
  cancelled (fst (Close biClose e)) = true
  /\ bulkIndexers (fst (Close biClose e)) = bulkIndexers e
  /\ (snd (Close biClose e) = None
      <-> forall site bi, bulkIndexers e !! site = Some bi -> biClose bi = None)
  /\ (forall errs,
        snd (Close biClose e) = Some errs ->
        exists site bi err,
          bulkIndexers e !! site = Some bi /\ biClose bi = Some err
          /\ errs = [err; Wrapf err "cannot close indexer for site %s" [ArgString site]]).
Proof.
  unfold Close. cbn [fst snd cancelled bulkIndexers].
  split; [reflexivity|]. split; [reflexivity|].
  assert (Hlist : forall site bi,
             In (site, bi) (map_to_list (bulkIndexers e)) <-> bulkIndexers e !! site = Some bi).
  { intros site bi. rewrite <- list_elem_of_In. apply elem_of_map_to_list. }
  destruct (closeIndexers_result (map_to_list (bulkIndexers e)) [])
    as [[-> Hall] | (site & bi & err & Hin & Hc & ->)].
  - split; [split; [intros _ site bi Hbi; apply (Hall site), Hlist, Hbi | reflexivity]|].
    intros errs H. discriminate.
  - split.
    + split; [discriminate|]. intros Hall.
      apply Hlist in Hin. rewrite (Hall _ _ Hin) in Hc. discriminate.
    + intros errs H. injection H as <-. exists site, bi, err.
      split; [now apply Hlist | auto].
Qed.

(** X15: [Search] looks at the site, the query, the limit and the offset of a
    request and at nothing else: [SortBy] makes no difference.  A page that
    it returns carries no matches, and a total between 0 and 2^64 - 1.  A
    response with a status above 299 is never turned into a page. *)
Theorem elastic_Search_shape (req : Request) e :
  (forall req',
      SiteID req' = SiteID req -> Query req' = Query req ->
      Limit req' = Limit req -> From req' = From req ->
      Search json_EncodeQuery client_Search json_DecodeResponse req' e
      = Search json_EncodeQuery client_Search json_DecodeResponse req e)
  /\ (forall page,
        Search json_EncodeQuery client_Search json_DecodeResponse req e = Returned (Ok page) ->
        Forall (fun d => rdMatches d = []) (Documents page)
        /\ (0 <= Total page < 2 ^ 64)%Z)
  /\ (forall body resp,
        buildQuery json_EncodeQuery req = Returned body ->
        client_Search (client e) (SiteID req) body = Ok resp ->
        (299 < respStatusCode resp)%Z ->
        exists err,
          Search json_EncodeQuery client_Search json_DecodeResponse req e
          = Returned (Err err)).
Proof.
  split; [|split].
  - intros req' Hs Hq Hl Hf. unfold Search, buildQuery. now rewrite Hs, Hq, Hl, Hf.
  - intros page. unfold Search.
    destruct (buildQuery json_EncodeQuery req) as [body|m]; [|discriminate].
    destruct (client_Search (client e) (SiteID req) body) as [resp|err]; [|discriminate].
    destruct (299 <? respStatusCode resp)%Z.
    + destruct (respBody resp); discriminate.
    + destruct (respBody resp) as [content|err]; [|discriminate].
      destruct (json_DecodeResponse content) as [r|err]; [|discriminate].
      intros H. injection H as <-. simpl. split.
      * apply Forall_forall. intros d Hin. apply list_elem_of_In, in_map_iff in Hin.
        destruct Hin as (v & <- & _). reflexivity.
      * unfold uint64. apply Z.mod_pos_bound. lia.
  - intros body resp Hbody Hresp Hstatus. unfold Search. rewrite Hbody, Hresp.
    apply Z.ltb_lt in Hstatus. rewrite Hstatus.
    destruct (respBody resp); eauto.
Qed.

End ElasticService.


(** ** The local back end: directory names, shards and result pages *)

Section SiteDirectories.

Import Bleve.

Lemma hextable_NoDup : List.NoDup hextable.
Proof.
  unfold hextable. simpl.
  repeat (constructor; [simpl; intuition discriminate|]). constructor.
Qed.

Lemma hexDigit_inj (n m : N) :
  (n < 16)%N -> (m < 16)%N -> hexDigit n = hexDigit m -> n = m.
Proof.
  intros Hn Hm Heq. unfold hexDigit in Heq.
  apply N2Nat.inj.
  apply (proj1 (List.NoDup_nth hextable "0"%char) hextable_NoDup); [simpl; lia.. | exact Heq].
Qed.

Lemma hexDigit_listed (n : N) : (n < 16)%N -> In (hexDigit n) hextable.
Proof. intros Hn. unfold hexDigit. apply nth_In. simpl. lia. Qed.

Lemma nibbles (n : N) :
  (n <= 255)%N ->
  (N.shiftr n 4 < 16)%N /\ (N.land n 15 < 16)%N
  /\ n = (16 * N.shiftr n 4 + N.land n 15)%N.
Proof.
  intros Hn. rewrite N.shiftr_div_pow2.
  change 15%N with (N.ones 4). rewrite N.land_ones.
  change (2 ^ 4)%N with 16%N.
  pose proof (N.div_mod n 16). pose proof (N.mod_lt n 16).
  assert (n / 16 < 16)%N by (apply N.Div0.div_lt_upper_bound; lia).
  lia.
Qed.

Lemma hexByte_inj (v w : byte) : hexByte v = hexByte w -> v = w.
Proof.
  unfold hexByte. intros H. injection H as Hhi Hlo.
  destruct (nibbles (Byte.to_N v) (Byte.to_N_bounded v)) as (Hv1 & Hv2 & Hv).
  destruct (nibbles (Byte.to_N w) (Byte.to_N_bounded w)) as (Hw1 & Hw2 & Hw).
  apply hexDigit_inj in Hhi; [|assumption..].
  apply hexDigit_inj in Hlo; [|assumption..].
  assert (Heq : Byte.to_N v = Byte.to_N w) by lia.
  pose proof (Byte.of_to_N v) as Hov. rewrite Heq, Byte.of_to_N in Hov.
  now injection Hov as ->.
Qed.

Lemma EncodeToString_inj (a : list byte) :
  forall b, EncodeToString a = EncodeToString b -> a = b.
Proof.
  induction a as [|v a IH]; intros [|w b]; simpl; try discriminate; [reflexivity|].
  intros H. injection H as Hhi Hlo Hrest.
  f_equal; [|now apply IH].
  apply hexByte_inj. unfold hexByte. now rewrite Hhi, Hlo.
Qed.

Lemma EncodeToString_app (a b : list byte) :
  EncodeToString (a ++ b) = (EncodeToString a ++ EncodeToString b)%string.
Proof. induction a as [|v a IH]; simpl; [reflexivity | now rewrite IH]. Qed.

Lemma EncodeToString_length (a : list byte) :
  String.length (EncodeToString a) = 2 * length a.
Proof.
  induction a as [|v a IH]; [reflexivity|].
  change (String.length (EncodeToString (v :: a)))
    with (S (S (String.length (EncodeToString a)))).
  rewrite IH. simpl length. lia.
Qed.

Lemma EncodeToString_digits (a : list byte) :
  Forall (fun c => In c hextable) (list_ascii_of_string (EncodeToString a)).
Proof.
  induction a as [|v a IH]; simpl; [constructor|].
  destruct (nibbles (Byte.to_N v) (Byte.to_N_bounded v)) as (H1 & H2 & _).
  constructor; [now apply hexDigit_listed|]. constructor; [now apply hexDigit_listed | exact IH].
Qed.

Lemma list_byte_of_string_length (s : string) :
  length (list_byte_of_string s) = String.length s.
Proof.
  unfold list_byte_of_string. rewrite length_map.
  induction s as [|c s IH]; simpl; [reflexivity | now rewrite IH].
Qed.

(** X16: the directory name of a site is the hex of the bytes of the site ID
    followed by the hex of the FNV offset basis: [fnv.New32().Sum(b)] appends
    the hash of nothing to [b].  So the name has two digits per byte and
    eight more, consists of the digits 0-9 and a-f, and two sites get the
    same name only if they are the same site. *)
Theorem site_directory_name (siteID : string) :
  encodeSiteID siteID = (EncodeToString (list_byte_of_string siteID) ++ "811c9dc5")%string
  /\ String.length (encodeSiteID siteID) = 2 * String.length siteID + 8
  /\ Forall (fun c => In c hextable) (list_ascii_of_string (encodeSiteID siteID))
  /\ forall other, encodeSiteID other = encodeSiteID siteID -> other = siteID.
Proof.
  assert (Hsum : forall input, fnv32Sum fnvOffset32 input = input ++ [x81; x1c; x9d; xc5]).
  { intros input. unfold fnv32Sum. f_equal. }
  unfold encodeSiteID. split; [|split; [|split]].
  - rewrite Hsum, EncodeToString_app. reflexivity.
  - rewrite EncodeToString_length, Hsum, length_app, list_byte_of_string_length. simpl. lia.
  - apply EncodeToString_digits.
  - intros other H. apply EncodeToString_inj in H. rewrite !Hsum in H.
    apply app_inv_tail in H.
    rewrite <- (string_of_list_byte_of_string other), H.
    apply string_of_list_byte_of_string.
Qed.

End SiteDirectories.

Section Shards.

Import Bleve.

Context {BIndex BBatch : Type} {lib : bleveLib BIndex BBatch}.
Variable commentDocType : string.
Variable os_Stat : string -> statResult.
Variable path_Join : string -> string -> string.

Lemma newBleve_engine (fs : gmap string (list byte)) (indexPath analyzer : string)
  (eng : Buffered.bufferedEngine (Index := BIndex)) :
  newBleve commentDocType os_Stat fs indexPath analyzer = Ok eng ->
  Buffered.indexPath eng = indexPath /\ Buffered.docQueue eng = []
  /\ Buffered.flushCount eng = 100%Z /\ Buffered.files eng = fs
  /\ Buffered.workerExited eng = false
  /\ Buffered.queueNotifier eng = Buffered.mkChan false []
  /\ is_Some (analyzerMapping !! analyzer).
Proof.
  unfold newBleve.
  destruct (analyzerMapping !! analyzer) as [name|]; [|discriminate].
  destruct (os_Stat indexPath) as [|errOpen|isDir].
  - destruct (bleve_New _ _); [|discriminate].
    intros H. injection H as <-. simpl. eauto 10.
  - discriminate.
  - destruct isDir; simpl; [|discriminate].
    destruct (bleve_Open _); [|discriminate].
    intros H. injection H as <-. simpl. eauto 10.
Qed.

Lemma makeShards_sites (fs : gmap string (list byte)) (indexPath analyzer : string)
  (sites : list string) :
  forall acc shards,
    makeShards commentDocType os_Stat path_Join fs indexPath analyzer sites acc = Ok shards ->
    forall site,
      (In site sites ->
       exists eng,
         shards !! site = Some eng
         /\ newBleve commentDocType os_Stat fs (path_Join indexPath (encodeSiteID site)) analyzer
            = Ok eng)
      /\ (~ In site sites -> shards !! site = acc !! site).
Proof.
  induction sites as [|site0 rest IH]; intros acc shards Hmake site; simpl in Hmake.
  - injection Hmake as <-. split; [intros [] | reflexivity].
  - destruct (newBleve commentDocType os_Stat fs (path_Join indexPath (encodeSiteID site0))
                analyzer) as [eng0|err] eqn:Hnew; [|discriminate].
    destruct (IH _ _ Hmake site) as [Hin Hout].
    destruct (in_dec string_dec site rest) as [Hrest|Hrest].
    + split; [intros _; now apply Hin | intros Hno; exfalso; apply Hno; now right].
    + rewrite (Hout Hrest). split.
      * intros [->|H]; [|contradiction]. exists eng0. split; [apply lookup_insert_eq | exact Hnew].
      * intros Hno. apply lookup_insert_ne. intros ->. apply Hno. now left.
Qed.

(** X17: [newBleveService] checks the analyzer only while it makes a shard: with
    no site it succeeds with no shard whatever the analyzer is, and with at
    least one site and an analyzer that is not known it fails.  The shards
    that it returns are those of the configured sites and of no other; the
    shard of a site has its index under the directory name of the site, an
    empty queue, [flushCount] 100 and a running worker. *)
Theorem newBleveService_shards (fs : gmap string (list byte))
  (params : Elastic.SearcherParams) :
  (Elastic.pSites params = [] ->
   newBleveService commentDocType os_Stat path_Join fs params = Ok ∅)
  /\ (Elastic.pSites params <> [] ->
      analyzerMapping !! Elastic.pAnalyzer params = None ->
      newBleveService commentDocType os_Stat path_Join fs params
      = Err (Errorf "Unknown analyzer: %q. Available analyzers for bleve: %v"
               [ArgString (Elastic.pAnalyzer params); ArgStrings analyzerNames]))
  /\ (forall shards,
        newBleveService commentDocType os_Stat path_Join fs params = Ok shards ->
        forall site,
          (In site (Elastic.pSites params) ->
           exists eng,
             shards !! site = Some eng
             /\ Buffered.indexPath eng
                = path_Join (Elastic.pIndexPath params) (encodeSiteID site)
             /\ Buffered.docQueue eng = [] /\ Buffered.flushCount eng = 100%Z
             /\ Buffered.workerExited eng = false)
          /\ (~ In site (Elastic.pSites params) -> shards !! site = None)).
Proof.
  unfold newBleveService. split; [|split].
  - intros ->. reflexivity.
  - intros Hne Hunknown. destruct (Elastic.pSites params) as [|site rest]; [contradiction|].
    simpl. unfold newBleve. rewrite Hunknown. reflexivity.
  - intros shards Hmake site.
    destruct (makeShards_sites fs _ _ _ _ _ Hmake site) as [Hin Hout]. split.
    + intros Hsite. destruct (Hin Hsite) as (eng & Hlook & Hnew).
      apply newBleve_engine in Hnew. destruct Hnew as (Hp & Hq & Hc & _ & Hex & _).
      exists eng. auto.
    + intros Hno. rewrite (Hout Hno). apply lookup_empty.
Qed.

End Shards.

Section ResultPages.

Import Bleve.

Lemma convertHits_aligned (hits : list DocumentMatch) :
  forall docs more,
    convertHits hits docs = Returned (docs ++ more) ->
    map rdID more = map hitID hits
    /\ map (fun d => Some (rdPostURL d)) more = map urlOf hits
    /\ map rdMatches more
       = map (fun r => match hitLocations r !! textFieldName with
                       | Some highlight => matchesOf highlight
                       | None => []
                       end) hits.
Proof.
  induction hits as [|r hits IH]; intros docs more Hconv; simpl in Hconv.
  - injection Hconv as Hconv. rewrite <- (app_nil_r docs) in Hconv at 1.
    apply app_inv_head in Hconv. subst more. auto.
  - destruct (urlOf r) as [url|] eqn:Hurl; [|discriminate].
    destruct (convertHits_with_urls hits
                (docs ++ [mkResultDoc (hitID r)
                            match hitLocations r !! textFieldName with
                            | Some highlight => matchesOf highlight
                            | None => []
                            end url])) as (more' & Hmore' & _).
    { clear IH. revert Hconv. generalize (docs ++ [mkResultDoc (hitID r)
                            match hitLocations r !! textFieldName with
                            | Some highlight => matchesOf highlight
                            | None => []
                            end url]).
      induction hits as [|r' hits IH']; intros acc Hconv; [constructor|].
      simpl in Hconv. destruct (urlOf r') eqn:Hurl'; [|discriminate].
      constructor; [rewrite Hurl'; eauto | eapply IH'; eauto]. }
    rewrite Hmore' in Hconv. injection Hconv as Hconv.
    rewrite <- app_assoc in Hconv. apply app_inv_head in Hconv. subst more.
    destruct (IH _ _ Hmore') as (Hid & Hu & Hm).
    simpl. rewrite Hid, Hu, Hm, Hurl. auto.
Qed.

(** X18: a page that [convertBleveSerp] returns follows the hits one by one: the
    documents carry the IDs and the URLs of the hits in the order of the
    hits, and each document has the matches of the hit's locations for the
    field "text", none when the hit has no such locations; the total is the
    library's. *)
Theorem convertBleveSerp_follows_hits (serp : SearchResult) (page : ResultPage) :
  convertBleveSerp serp = Returned page ->
  Total page = srTotal serp
  /\ map rdID (Documents page) = map hitID (srHits serp)
  /\ map (fun d => Some (rdPostURL d)) (Documents page) = map urlOf (srHits serp)
  /\ map rdMatches (Documents page)
     = map (fun r => match hitLocations r !! textFieldName with
                     | Some highlight => matchesOf highlight
                     | None => []
                     end) (srHits serp).
Proof.
  unfold convertBleveSerp.
  destruct (convertHits (srHits serp) []) as [docs|m] eqn:Hconv; [|discriminate].
  intros H. injection H as <-. simpl. split; [reflexivity|].
  now apply (convertHits_aligned (srHits serp) [] docs).
Qed.

End ResultPages.


(** ** Sort fields, for any list of names *)

(** X11: for names that are not empty and do not begin with a sign,
    [validateSortField] accepts exactly the names, each with or without one
    leading [+] or [-]. *)
Theorem validateSortField_names (possible : list string) (sortBy : string) :
  (forall name, In name possible ->
                exists c rest, name = String c rest /\ c <> "-"%char /\ c <> "+"%char) ->
  (Buffered.validateSortField sortBy possible = true
   <-> exists name, In name possible
                    /\ (sortBy = name \/ sortBy = String "+" name \/ sortBy = String "-" name)).
Proof.
  intros Hnames.
  assert (Hex : forall s, existsb (String.eqb s) possible = true <-> In s possible).
  { intros s. rewrite existsb_exists. split.
    - intros (x & Hin & Heq). apply String.eqb_eq in Heq. now subst.
    - intros Hin. exists s. split; [exact Hin | apply String.eqb_refl]. }
  split.
  - destruct sortBy as [|c rest]; [discriminate|].
    unfold Buffered.validateSortField.
    destruct (Ascii.eqb_spec c "-") as [->|Hminus]; cbn [orb].
    + intros H. apply Hex in H. exists rest. auto.
    + destruct (Ascii.eqb_spec c "+") as [->|Hplus]; cbn [orb].
      * intros H. apply Hex in H. exists rest. auto.
      * intros H. apply Hex in H. eauto.
  - intros (name & Hin & Hcase).
    destruct (Hnames name Hin) as (c & rest & -> & Hm & Hp).
    destruct Hcase as [-> | [-> | ->]]; unfold Buffered.validateSortField.
    + apply Ascii.eqb_neq in Hm, Hp. rewrite Hm, Hp. cbn [orb]. now apply Hex.
    + cbn [Ascii.eqb orb]. simpl orb. now apply Hex.
    + simpl orb. now apply Hex.
Qed.

(** ** The HTTP handlers *)

Section ApiHandlers.

Import Api.

(** X19: a [since] in milliseconds gives the instant that many milliseconds
    from the Unix epoch, also when it is negative, with the nanoseconds
    within the second; an empty [since] gives the zero time, and a [since]
    that is not a 64-bit decimal number gives an error. *)
Theorem parseSince_exact (q : gmap string (list string)) :
  (Get q "since" = EmptyString -> parseSince q = Ok zeroTime)
  /\ (forall n,
        Get q "since" <> EmptyString -> ParseInt (Get q "since") = Ok n ->
        exists t,
          parseSince q = Ok t
          /\ (tSec t * 1000000000 + tNsec t = n * 1000000)%Z
          /\ (0 <= tNsec t < 1000000000)%Z)
  /\ (forall e,
        Get q "since" <> EmptyString -> ParseInt (Get q "since") = Err e ->
        parseSince q = Err (Wrap e "can't translate since parameter")).
Proof.
  unfold parseSince. split; [|split].
  - intros ->. reflexivity.
  - intros n Hne Hparse. apply String.eqb_neq in Hne. rewrite Hne, Hparse.
    eexists. split; [reflexivity|].
    pose proof (Z.quot_rem' n 1000) as Hqr.
    assert (Hrem : (-1000 < Z.rem n 1000 < 1000)%Z).
    { pose proof (Z.rem_bound_abs n 1000). lia. }
    unfold time_Unix.
    assert (Hsmall : ((1000000 * Z.rem n 1000) ÷ 1000000000 = 0)%Z).
    { apply Z.quot_small_iff; lia. }
    destruct (Z.ltb_spec (1000000 * Z.rem n 1000) 0) as [Hneg|Hpos]; cbn [orb].
    + rewrite Hsmall.
      destruct (Z.ltb_spec (1000000 * Z.rem n 1000 - 0 * 1000000000) 0); simpl; lia.
    + destruct (Z.leb_spec 1000000000 (1000000 * Z.rem n 1000)); simpl; lia.
  - intros e Hne Hparse. apply String.eqb_neq in Hne. now rewrite Hne, Hparse.
Qed.

Context {Page : Type}.
Variable encodeJSONWithHTML : Page -> result (list byte).
Variable isSearchNotReady : error -> bool.
Variable isSearchNotEnabled : error -> bool.

Lemma Get_insert_other (q : gmap string (list string)) (key other : string)
  (values : list string) :
  other <> key -> Get (<[key := values]> q) other = Get q other.
Proof. intros Hne. unfold Get. now rewrite lookup_insert_ne. Qed.

(** X20: the search handler turns down a limit below 1 or above 100 with a 400,
    whatever the cache holds and without asking the data service.  It asks
    the data service only with a limit from 1 to 100: two data services that
    agree on those limits give the same response.  A limit that is missing
    or is not a number is not turned down but taken as 20; the offset is not
    checked. *)
Theorem searchQueryCtrl_limits (q : gmap string (list string)) (cached : option (list byte)) :
  (forall search limit,
      Atoi (Get q "limit") = Ok limit -> (limit < 1 \/ 100 < limit)%Z ->
      searchQueryCtrl search encodeJSONWithHTML isSearchNotReady isSearchNotEnabled q cached
      = SendErrorJSON 400 (Errorf "wrong param" [])
          "wrong limit value. expected to be from 1 to 100" ErrActionRejected)
  /\ (forall search search' : string -> string -> string -> Z -> Z -> result Page,
        (forall siteID query sortBy skip limit,
            (1 <= limit <= 100)%Z ->
            search siteID query sortBy skip limit = search' siteID query sortBy skip limit) ->
        searchQueryCtrl search encodeJSONWithHTML isSearchNotReady isSearchNotEnabled q cached
        = searchQueryCtrl search' encodeJSONWithHTML isSearchNotReady isSearchNotEnabled q
            cached)
  /\ (forall search e,
        Atoi (Get q "limit") = Err e ->
        searchQueryCtrl search encodeJSONWithHTML isSearchNotReady isSearchNotEnabled q cached
        = searchQueryCtrl search encodeJSONWithHTML isSearchNotReady isSearchNotEnabled
            (<["limit" := ["20"]]> q) cached).
Proof.
  split; [|split].
  - intros search limit Hlimit Hout. unfold searchQueryCtrl. rewrite Hlimit.
    assert (Hbad : ((limit <? 1) || (100 <? limit))%Z = true).
    { apply orb_true_iff. rewrite Z.ltb_lt, Z.ltb_lt. exact Hout. }
    now rewrite Hbad.
  - intros search search' Hagree. unfold searchQueryCtrl.
    destruct (Atoi (Get q "limit")) as [limit|e].
    + destruct (Z.ltb_spec limit 1); cbn [orb]; [reflexivity|].
      destruct (Z.ltb_spec 100 limit); [reflexivity|].
      destruct cached; [reflexivity|]. rewrite Hagree by lia. reflexivity.
    + cbn [Z.ltb orb]. simpl. destruct cached; [reflexivity|].
      rewrite Hagree by lia. reflexivity.
  - intros search e Hlimit. unfold searchQueryCtrl.
    assert (Hother : forall other, other <> "limit" ->
                                   Get (<["limit" := ["20"]]> q) other = Get q other)
      by (intros other; apply Get_insert_other).
    rewrite (Hother "site"), (Hother "query"), (Hother "sort"), (Hother "skip")
      by discriminate.
    rewrite Hlimit.
    replace (Get (<["limit" := ["20"]]> q) "limit") with "20"
      by (unfold Get; now rewrite lookup_insert_eq).
    reflexivity.
Qed.

End ApiHandlers.


(** ** Examples of the further properties *)

Lemma documents_kept_in_order_witness :
  Ledger.indexedDocs
    (Buffered.trace
       (fst (Buffered.run (engine := Examples.memEngine) (codec := Examples.plainCodec)
               "wal" Examples.joinPath
               [Buffered.OpIndexDocument Examples.doc1;
                Buffered.OpWorker Buffered.NotifierC Buffered.noFaults;
                Buffered.OpWorker Buffered.TimerC Buffered.noFaults;
                Buffered.OpIndexDocument Samples.doc2;
                Buffered.OpDelete "c1"]
               (Examples.memEngineAt true ∅))))
  ++ Ledger.queuedDocs
       (Buffered.docQueue
          (fst (Buffered.run (engine := Examples.memEngine) (codec := Examples.plainCodec)
                  "wal" Examples.joinPath
                  [Buffered.OpIndexDocument Examples.doc1;
                   Buffered.OpWorker Buffered.NotifierC Buffered.noFaults;
                   Buffered.OpWorker Buffered.TimerC Buffered.noFaults;
                   Buffered.OpIndexDocument Samples.doc2;
                   Buffered.OpDelete "c1"]
                  (Examples.memEngineAt true ∅))))
  = [Examples.doc1; Samples.doc2].
Proof.
  pose proof (documents_kept_in_order (engine := Examples.memEngine)
                (codec := Examples.plainCodec) "wal" Examples.joinPath
                [Buffered.OpIndexDocument Examples.doc1;
                 Buffered.OpWorker Buffered.NotifierC Buffered.noFaults;
                 Buffered.OpWorker Buffered.TimerC Buffered.noFaults;
                 Buffered.OpIndexDocument Samples.doc2;
                 Buffered.OpDelete "c1"]
                (Examples.memEngineAt true ∅)) as H.
  match goal with
  | |- context [Buffered.trace ?x] =>
      rewrite (H x ltac:(vm_compute; reflexivity) ltac:(vm_compute; reflexivity))
  end.
  reflexivity.
Defined.

Lemma memEngineAt_tidy (writable : bool) (fs : gmap string (list byte)) :
  Ledger.tidy (Examples.memEngineAt writable fs).
Proof. split; simpl; [constructor | intros g []]. Qed.

Lemma flusher_answered_once_witness :
  NoDup (map fst
           (Ledger.answers
              (Buffered.trace
                 (fst (Buffered.run (engine := Examples.memEngine)
                         (codec := Examples.plainCodec) "wal" Examples.joinPath
                         [Buffered.OpFlush;
                          Buffered.OpWorker Buffered.NotifierC Buffered.noFaults;
                          Buffered.OpFlush;
                          Buffered.OpWorker Buffered.NotifierC Buffered.noFaults]
                         (Examples.memEngineAt true ∅)))))).
Proof.
  apply (flusher_answered_once (engine := Examples.memEngine) (codec := Examples.plainCodec)
           "wal" Examples.joinPath
           [Buffered.OpFlush;
            Buffered.OpWorker Buffered.NotifierC Buffered.noFaults;
            Buffered.OpFlush;
            Buffered.OpWorker Buffered.NotifierC Buffered.noFaults]
           (Examples.memEngineAt true ∅) _ None (memEngineAt_tidy true ∅)).
  vm_compute. reflexivity.
Defined.

Lemma writeAheadLog_saves_queue_witness :
  Buffered.files
    (Buffered.writeAheadLog (codec := Examples.plainCodec) "wal" Examples.joinPath
       Buffered.noFaults Samples.queued) !! "/idx/s1/wal"
  = Some (Ledger.logOf (codec := Examples.plainCodec) [Examples.doc1; Samples.doc2])
  /\ Buffered.docQueue
       (Buffered.writeAheadLog (codec := Examples.plainCodec) "wal" Examples.joinPath
          Buffered.noFaults Samples.queued) = []
  /\ Ledger.answers
       (Buffered.trace
          (Buffered.writeAheadLog (codec := Examples.plainCodec) "wal" Examples.joinPath
             Buffered.noFaults Samples.queued))
     = [(0, Some (Errorf "indexer closing" []))].
Proof.
  destruct (writeAheadLog_saves_queue (codec := Examples.plainCodec) "wal" Examples.joinPath
              Buffered.noFaults Samples.queued) as (Hfile & Hq & _ & Ha).
  - reflexivity.
  - reflexivity.
  - intros d _. eexists. reflexivity.
  - split; [exact Hfile|]. split; [exact Hq | exact (Ha eq_refl)].
Defined.


Lemma ahead_log_read_by_record_witness :
  Buffered.ReadBytes x00
    (Ledger.logOf (codec := Examples.plainCodec) [Examples.doc1; Samples.doc2])
  = (map (Ledger.logRecord (codec := Examples.plainCodec)) [Examples.doc1; Samples.doc2], []).
Proof.
  apply (ahead_log_read_by_record (codec := Examples.plainCodec)
           [Examples.doc1; Samples.doc2]).
  intros d [<-|[<-|[]]]; (eexists; split; [reflexivity|]);
    vm_compute; intuition discriminate.
Defined.

Lemma flush_drains_queue_witness :
  exists s',
    Buffered.run (engine := Examples.memEngine) (codec := Examples.plainCodec)
      "wal" Examples.joinPath
      [Buffered.OpFlush; Buffered.OpWorker Buffered.NotifierC Buffered.noFaults]
      (Examples.memEngineAt true ∅) = (s', None)
    /\ Buffered.docQueue s' = []
    /\ Buffered.flushResult 0 s' = Some None.
Proof.
  destruct (flush_drains_queue (engine := Examples.memEngine) (codec := Examples.plainCodec)
              "wal" Examples.joinPath Buffered.noFaults (Examples.memEngineAt true ∅)
              eq_refl eq_refl eq_refl eq_refl (memEngineAt_flushersKnown true ∅))
    as (s' & Hrun & Hq & Hres & _).
  exists s'. auto.
Defined.

Lemma shutdown_saves_queue_witness :
  exists s',
    Buffered.run (engine := Examples.memEngine) (codec := Examples.plainCodec)
      "wal" Examples.joinPath
      [Buffered.OpClose; Buffered.OpWorker Buffered.NotifierC Buffered.noFaults]
      Samples.queued = (s', None)
    /\ Buffered.workerExited s' = true
    /\ Buffered.files s' !! "/idx/s1/wal"
       = Some (Ledger.logOf (codec := Examples.plainCodec) [Examples.doc1; Samples.doc2]).
Proof.
  destruct (shutdown_saves_queue (engine := Examples.memEngine) (codec := Examples.plainCodec)
              "wal" Examples.joinPath Buffered.noFaults Samples.queued)
    as (s' & Hrun & Hex & _ & Hfile & _).
  - reflexivity.
  - reflexivity.
  - reflexivity.
  - reflexivity.
  - vm_compute. reflexivity.
  - reflexivity.
  - reflexivity.
  - intros d _. eexists. reflexivity.
  - exists s'. auto.
Defined.

Lemma shutdown_with_full_queue_witness :
  exists s',
    Buffered.run (engine := Examples.memEngine) (codec := Examples.plainCodec)
      "wal" Examples.joinPath
      [Buffered.OpClose; Buffered.OpWorker Buffered.NotifierC Buffered.noFaults]
      Samples.full = (s', None)
    /\ Buffered.files s' !! "/idx/s1/wal" = Some []
    /\ Examples.memDocs (Buffered.index s') = [].
Proof.
  destruct (shutdown_with_full_queue (engine := Examples.memEngine)
              (codec := Examples.plainCodec) "wal" Examples.joinPath Buffered.noFaults
              Samples.full)
    as (s' & sClosed & err & HClose & Hrun & _ & Hidx & _ & _ & Hfile).
  - reflexivity.
  - reflexivity.
  - reflexivity.
  - reflexivity.
  - vm_compute. discriminate.
  - reflexivity.
  - exists s'. split; [exact Hrun|]. split; [exact Hfile|].
    rewrite Hidx. injection HClose as <- _. vm_compute. reflexivity.
Defined.

Lemma closed_engine_panics_witness :
  Buffered.IndexDocument Samples.doc2
    (Buffered.setIndex (Examples.mkMem [] false)
       (Buffered.setNotifier (Buffered.mkChan true []) (Examples.memEngineAt true ∅)))
  = Buffered.Panics (LibError "runtime" "send on closed channel").
Proof.
  apply (closed_engine_panics (engine := Examples.memEngine) Samples.doc2
           (Examples.memEngineAt true ∅) _ _ eq_refl).
Defined.

Lemma elastic_enqueues_witness :
  exists e',
    Elastic.Delete "s1" "c1" Examples.oneSite = (e', None)
    /\ Elastic.bulkIndexers e' !! "s1"
       = Some (Elastic.mkBulkIndexer "s1" [Elastic.mkItem "delete" "c1" None]).
Proof.
  destruct (proj1 (elastic_enqueues Examples.docFromComment
                     (@Buffered.json_Marshal Examples.plainCodec) Examples.oneSite "s1"
                     (Elastic.mkBulkIndexer "s1" []) eq_refl eq_refl) "c1")
    as (e' & Hdel & Hbi & _).
  exists e'. auto.
Defined.

Lemma elastic_indexer_per_site_witness :
  exists e,
    Elastic.newElasticService (Client := unit) (fun _ => Ok tt)
      (fun siteID _ => Ok (Elastic.mkBulkIndexer siteID []))
      (Elastic.mkParams "elastic" EmptyString EmptyString "http://es:9200" "token:k" ["s1"; "s2"])
    = Ok e
    /\ Elastic.bulkIndexers e !! "s3" = None.
Proof.
  assert (He : exists e,
             Elastic.newElasticService (Client := unit) (fun _ => Ok tt)
               (fun siteID _ => Ok (Elastic.mkBulkIndexer siteID []))
               (Elastic.mkParams "elastic" EmptyString EmptyString "http://es:9200" "token:k"
                  ["s1"; "s2"]) = Ok e)
    by (eexists; vm_compute; reflexivity).
  destruct He as [e He]. exists e. split; [exact He|].
  destruct (proj1 (elastic_indexer_per_site (fun _ => Ok tt)
                     (fun siteID _ => Ok (Elastic.mkBulkIndexer siteID []))
                     (Elastic.mkParams "elastic" EmptyString EmptyString "http://es:9200"
                        "token:k" ["s1"; "s2"])) e He) as [_ Hsites].
  apply (Hsites "s3"). simpl. intuition discriminate.
Defined.

Lemma elastic_Close_reports_witness :
  exists err,
    snd (Elastic.Close Samples.closeButS2 Samples.twoSites)
    = Some [err; Wrapf err "cannot close indexer for site %s" [ArgString "s2"]].
Proof.
  destruct (elastic_Close_reports Samples.closeButS2 Samples.twoSites) as (_ & _ & _ & Hsome).
  destruct (Hsome _ eq_refl) as (site & bi & err & _ & _ & Herrs).
  exists (LibError "esutil" "flush failed"). reflexivity.
Defined.

Lemma elastic_Search_shape_witness :
  Elastic.Search Samples.encodeQuery Samples.notFound Samples.decodeNothing
    (mkRequest "s1" "hello" "-timestamp" 10 0) Examples.oneSite
  = Elastic.Search Samples.encodeQuery Samples.notFound Samples.decodeNothing
      (mkRequest "s1" "hello" EmptyString 10 0) Examples.oneSite
  /\ exists err,
      Elastic.Search Samples.encodeQuery Samples.notFound Samples.decodeNothing
        (mkRequest "s1" "hello" EmptyString 10 0) Examples.oneSite
      = Returned (Err err).
Proof.
  destruct (elastic_Search_shape Samples.encodeQuery Samples.notFound Samples.decodeNothing
              (mkRequest "s1" "hello" EmptyString 10 0) Examples.oneSite)
    as (Hsame & _ & Hstatus).
  split.
  - apply Hsame; reflexivity.
  - apply (Hstatus _ _ eq_refl eq_refl). reflexivity.
Defined.

Lemma site_directory_name_witness :
  Bleve.encodeSiteID "remark" = "72656d61726b811c9dc5"
  /\ (Bleve.encodeSiteID "s1" = Bleve.encodeSiteID "remark" -> "s1" = "remark").
Proof.
  destruct (site_directory_name "remark") as (Hname & _ & _ & Hinj).
  split; [rewrite Hname; reflexivity | apply Hinj].
Defined.

Lemma newBleveService_shards_witness :
  Bleve.newBleveService (lib := Examples.memBleve) "comment" (fun _ => Bleve.StatNotExist)
    Examples.joinPath ∅
    (Elastic.mkParams "bleve" "/idx" "klingon" EmptyString EmptyString [])
  = Ok ∅
  /\ Bleve.newBleveService (lib := Examples.memBleve) "comment" (fun _ => Bleve.StatNotExist)
       Examples.joinPath ∅
       (Elastic.mkParams "bleve" "/idx" "klingon" EmptyString EmptyString ["s1"])
     = Err (Errorf "Unknown analyzer: %q. Available analyzers for bleve: %v"
              [ArgString "klingon"; ArgStrings Bleve.analyzerNames]).
Proof.
  split.
  - apply (proj1 (newBleveService_shards (lib := Examples.memBleve) "comment"
                    (fun _ => Bleve.StatNotExist) Examples.joinPath ∅
                    (Elastic.mkParams "bleve" "/idx" "klingon" EmptyString EmptyString []))).
    reflexivity.
  - apply (proj1 (proj2 (newBleveService_shards (lib := Examples.memBleve) "comment"
                           (fun _ => Bleve.StatNotExist) Examples.joinPath ∅
                           (Elastic.mkParams "bleve" "/idx" "klingon" EmptyString EmptyString
                              ["s1"])))).
    + discriminate.
    + vm_compute. reflexivity.
Defined.

Lemma convertBleveSerp_follows_hits_witness :
  map rdID
    (Documents
       (mkResultPage 2
          [mkResultDoc "c1" [mkTokenMatch 0 5] "https://example.com/a";
           mkResultDoc "c2" [] "https://example.com/b"]))
  = ["c1"; "c2"].
Proof.
  apply (convertBleveSerp_follows_hits
           (Bleve.mkSearchResult 2
              [Bleve.mkHit "c1" (<["url" := Bleve.FString "https://example.com/a"]> ∅)
                 (<["text" := [("hello", [Bleve.mkLocation 0 5])]]> ∅);
               Bleve.mkHit "c2" (<["url" := Bleve.FString "https://example.com/b"]> ∅) ∅])).
  vm_compute. reflexivity.
Defined.

Lemma validateSortField_names_witness :
  Buffered.validateSortField "-score" ["timestamp"; "score"] = true.
Proof.
  apply (validateSortField_names ["timestamp"; "score"] "-score").
  - intros name [<-|[<-|[]]]; eexists _, _; (split; [reflexivity|]); split; discriminate.
  - exists "score". split; [right; now left | right; right; reflexivity].
Defined.

Lemma parseSince_exact_witness :
  exists t,
    Api.parseSince (<["since" := ["-1500"]]> ∅) = Ok t
    /\ (Api.tSec t * 1000000000 + Api.tNsec t = -1500 * 1000000)%Z
    /\ (0 <= Api.tNsec t < 1000000000)%Z.
Proof.
  apply (proj1 (proj2 (parseSince_exact (<["since" := ["-1500"]]> ∅)))).
  - vm_compute. discriminate.
  - vm_compute. reflexivity.
Defined.

Lemma searchQueryCtrl_limits_witness :
  Api.searchQueryCtrl Samples.findNothing Samples.encodeUnit Samples.neverThat
    Samples.neverThat (<["limit" := ["101"]]> (<["query" := ["hello"]]> ∅)) None
  = Api.SendErrorJSON 400 (Errorf "wrong param" [])
      "wrong limit value. expected to be from 1 to 100" Api.ErrActionRejected
  /\ Api.searchQueryCtrl Samples.findNothing Samples.encodeUnit Samples.neverThat
       Samples.neverThat (<["limit" := ["many"]]> ∅) None
     = Api.searchQueryCtrl Samples.findNothing Samples.encodeUnit Samples.neverThat
         Samples.neverThat (<["limit" := ["20"]]> (<["limit" := ["many"]]> ∅)) None.
Proof.
  split.
  - apply (proj1 (searchQueryCtrl_limits Samples.encodeUnit Samples.neverThat
                    Samples.neverThat
                    (<["limit" := ["101"]]> (<["query" := ["hello"]]> ∅)) None)
             Samples.findNothing 101%Z).
    + vm_compute. reflexivity.
    + right. lia.
  - apply (proj2 (proj2 (searchQueryCtrl_limits Samples.encodeUnit Samples.neverThat
                           Samples.neverThat (<["limit" := ["many"]]> ∅) None))
             Samples.findNothing Api.ErrSyntax).
    vm_compute. reflexivity.
Defined.

Lemma Init_succeeds_without_records_witness :
  exists s',
    Buffered.Init (codec := Examples.plainCodec) "wal" Examples.joinPath (fun _ => false)
      Buffered.noFaults
      (Examples.memEngineAt true (<["/idx/s1/wal" := Examples.bytesOf "{c1,u"]> ∅))
    = Buffered.Returns (s', (true, None))
    /\ Buffered.docQueue s' = [] /\ Buffered.files s' !! "/idx/s1/wal" = None.
Proof.
  assert (HInit : exists s',
             Buffered.Init (codec := Examples.plainCodec) "wal" Examples.joinPath
               (fun _ => false) Buffered.noFaults
               (Examples.memEngineAt true (<["/idx/s1/wal" := Examples.bytesOf "{c1,u"]> ∅))
             = Buffered.Returns (s', (true, None)))
    by (eexists; vm_compute; reflexivity).
  destruct HInit as [s' HInit]. exists s'. split; [exact HInit|].
  assert (Hfile : Buffered.files
                    (Examples.memEngineAt true
                       (<["/idx/s1/wal" := Examples.bytesOf "{c1,u"]> ∅))
                    !! Buffered.getAheadLogPath "wal" Examples.joinPath
                         (Examples.memEngineAt true
                            (<["/idx/s1/wal" := Examples.bytesOf "{c1,u"]> ∅))
                  = Some (Examples.bytesOf "{c1,u")) by (vm_compute; reflexivity).
  destruct (Init_succeeds_without_records (codec := Examples.plainCodec) "wal"
              Examples.joinPath (fun _ => false) Buffered.noFaults
              (Examples.memEngineAt true (<["/idx/s1/wal" := Examples.bytesOf "{c1,u"]> ∅))
              s' (Examples.bytesOf "{c1,u") None Hfile eq_refl HInit)
    as (Hq & Hok & _).
  split; [exact Hq | apply (proj2 (Hok eq_refl)); reflexivity].
Defined.
